(** * ETL-Warehouse: the record generator and the key preview

    A shallow embedding of the two scripts of the repository,
    [data_generator.py] and [load_key.py], and the properties their
    specification states about them.

    Python text is a sequence of Unicode code points, so a [str] is a list of
    [N].  The scripts run in a small state-and-exception monad over the
    process state (environment, standard streams, the outside sources of
    randomness and time), under the settings the interpreter was started
    with. *)

From Stdlib Require Import ZArith NArith List String Ascii Lia.
From stdpp Require Import gmap list.

Local Open Scope N_scope.
#[local] Set Warnings "-register-all".

(** ** Text *)

Abbreviation str := (list N).

(** An ASCII literal of the source as code points. *)
Definition lit (s : string) : str :=
  map N_of_ascii (list_ascii_of_string s).
Arguments lit : simpl never.

Definition NL : N := 10.

(** [sep.join(parts)] *)
Fixpoint join (sep : str) (parts : list str) : str :=
  match parts with
  | [] => []
  | [p] => p
  | p :: ps => p ++ sep ++ join sep ps
  end.

(** ** Positional numerals

    [digits base n] lists the digits of [n], most significant first, the way
    [str(int)], [hex] and the [%d]/[%x] conversions print them: no leading
    zero, and the single digit [0] for zero. *)

Fixpoint digits_aux (fuel : nat) (base n : N) (acc : list N) : list N :=
  match fuel with
  | O => acc
  | S fuel' =>
      let acc' := (n mod base) :: acc in
      if n / base =? 0 then acc' else digits_aux fuel' base (n / base) acc'
  end.

Definition digits (base n : N) : list N :=
  digits_aux (S (N.to_nat (N.size n))) base n [].

Definition of_digits (base : N) (ds : list N) : N :=
  fold_left (fun a d => a * base + d) ds 0.

Definition dec_char (d : N) : N := 48 + d.

(** Lower-case hexadecimal, as [hex] and [%x] print. *)
Definition hex_char (d : N) : N := if d <? 10 then 48 + d else 87 + d.

(** Upper-case hexadecimal, as the JSON writer prints its escapes. *)
Definition HEX_char (d : N) : N := if d <? 10 then 48 + d else 55 + d.

Definition hex_val (c : N) : option N :=
  if (48 <=? c) && (c <=? 57) then Some (c - 48)
  else if (97 <=? c) && (c <=? 102) then Some (c - 87)
  else if (65 <=? c) && (c <=? 70) then Some (c - 55)
  else None.

(** Left padding with ['0'] up to [width] characters. *)
Definition zfill (width : nat) (s : str) : str :=
  repeat 48 (width - length s) ++ s.

(** [str(z)], also ["%d" % z]. *)
Definition str_of_int (z : Z) : str :=
  (if (z <? 0)%Z then lit "-" else []) ++ map dec_char (digits 10 (Z.abs_N z)).

(** ["%0<width>d" % z]: the sign counts towards the width. *)
Definition fmt_0d (width : nat) (z : Z) : str :=
  if (z <? 0)%Z
  then lit "-" ++ zfill (width - 1) (map dec_char (digits 10 (Z.abs_N z)))
  else zfill width (map dec_char (digits 10 (Z.abs_N z))).

(** ["%0<width>x" % n] for a non-negative [n]. *)
Definition fmt_0x (width : nat) (n : N) : str :=
  zfill width (map hex_char (digits 16 n)).

(** [hex(z)] *)
Definition hex (z : Z) : str :=
  (if (z <? 0)%Z then lit "-" else []) ++ lit "0x" ++ map hex_char (digits 16 (Z.abs_N z)).

(** Reading back the digits of a [hex] numeral (what [int(s, 16)] does after
    the prefix). *)
Fixpoint hex_digits_value (acc : N) (s : str) : option N :=
  match s with
  | [] => Some acc
  | c :: s' =>
      match hex_val c with
      | Some d => hex_digits_value (acc * 16 + d) s'
      | None => None
      end
  end.

Example digits_10_2023 : map dec_char (digits 10 2023) = lit "2023".
Proof. reflexivity. Qed.

Example hex_255 : hex 255 = lit "0xff".
Proof. reflexivity. Qed.

Example hex_0 : hex 0 = lit "0x0".
Proof. reflexivity. Qed.

Example fmt_0d_6 : fmt_0d 2 6 = lit "06".
Proof. reflexivity. Qed.

(** ** Python values

    The values the scripts build: [None], integers, text, and dictionaries
    with text keys.  A dictionary keeps its insertion order, which is the
    order the serializer writes, so it is an association list. *)

Unset Elimination Schemes.
Inductive pyval : Type :=
| PNone
| PInt (z : Z)
| PStr (s : str)
| PDict (items : list (str * pyval)).
Set Elimination Schemes.

(** Induction over values, with the hypothesis on every value stored in a
    dictionary. *)
Fixpoint pyval_ind (P : pyval -> Prop)
    (HNone : P PNone) (HInt : forall z, P (PInt z)) (HStr : forall s, P (PStr s))
    (HDict : forall items, Forall (fun kv => P (snd kv)) items -> P (PDict items))
    (v : pyval) : P v :=
  match v with
  | PNone => HNone
  | PInt z => HInt z
  | PStr s => HStr s
  | PDict items =>
      HDict items
        ((fix go (l : list (str * pyval)) : Forall (fun kv => P (snd kv)) l :=
            match l with
            | [] => List.Forall_nil _
            | kv :: l' =>
                List.Forall_cons _ kv l' (pyval_ind P HNone HInt HStr HDict (snd kv)) (go l')
            end) items)
  end.

(** [d[key]] on the items of a dictionary. *)
Fixpoint getitem (items : list (str * pyval)) (key : str) : option pyval :=
  match items with
  | [] => None
  | (k, v) :: rest => if decide (k = key) then Some v else getitem rest key
  end.

Definition field (v : pyval) (key : string) : option pyval :=
  match v with
  | PDict items => getitem items (lit key)
  | _ => None
  end.

(** ** The process

    Everything the scripts obtain from outside sources of nondeterminism
    (the operating system's entropy pool behind [uuid.uuid4], the generators
    behind [random] and [Faker], the system clock) is read off one [Oracle]:
    an unbounded tape of arbitrary numbers and a cursor.  A property proved
    for every oracle holds for every outcome of those sources. *)

Record Oracle : Type := { tape : nat -> N; pos : nat }.

Definition Gen (A : Type) : Type := Oracle -> A * Oracle.

Definition draw : Gen N :=
  fun o => (tape o (pos o), {| tape := tape o; pos := S (pos o) |}).

Record Proc : Type := {
  environ : gmap str str;      (* os.environ *)
  dotenv_file : gmap str str;  (* the bindings of the .env file, none when there is no file *)
  stdout : str;                (* text written to sys.stdout *)
  stderr : str;                (* text written to sys.stderr *)
  oracle : Oracle
}.

Definition with_environ (e : gmap str str) (p : Proc) : Proc :=
  {| environ := e; dotenv_file := dotenv_file p; stdout := stdout p; stderr := stderr p;
     oracle := oracle p |}.

Definition with_stdout (s : str) (p : Proc) : Proc :=
  {| environ := environ p; dotenv_file := dotenv_file p; stdout := s; stderr := stderr p;
     oracle := oracle p |}.

Definition with_oracle (o : Oracle) (p : Proc) : Proc :=
  {| environ := environ p; dotenv_file := dotenv_file p; stdout := stdout p; stderr := stderr p;
     oracle := o |}.

(** The process as the interpreter starts the script: nothing written yet. *)
Definition start (env file : gmap str str) (o : Oracle) : Proc :=
  {| environ := env; dotenv_file := file; stdout := []; stderr := []; oracle := o |}.

(** The exceptions the scripts can meet. *)
Inductive exn : Type :=
| IndexError (msg : str)
| ValueError (msg : str)
| UnicodeEncodeError (msg : str)
| SystemExit (arg : str).

Inductive result (A : Type) : Type :=
| Ok (a : A)
| Raise (e : exn).
Arguments Ok {A} a.
Arguments Raise {A} e.

Definition M (A : Type) : Type := Proc -> result A * Proc.

Definition ret {A} (a : A) : M A := fun p => (Ok a, p).

Definition bind {A B} (m : M A) (k : A -> M B) : M B :=
  fun p =>
    match m p with
    | (Ok a, p') => k a p'
    | (Raise e, p') => (Raise e, p')
    end.

Definition raise {A} (e : exn) : M A := fun p => (Raise e, p).

Declare Scope py_scope.
Delimit Scope py_scope with py.
Notation "'let*' x ':=' m 'in' k" := (bind m (fun x => k))
  (at level 10, x name, m at level 100, k at level 200) : py_scope.
Notation "'do' m 'then' k" := (bind m (fun _ => k))
  (at level 10, m at level 100, k at level 200) : py_scope.
Local Open Scope py_scope.

(** A library call that only consumes the oracle. *)
Definition sample {A} (g : Gen A) : M A :=
  fun p => let (a, o) := g (oracle p) in (Ok a, with_oracle o p).

(** The characters at the head of a text that fail [ok]. *)
Fixpoint takewhile_not (ok : N -> bool) (s : str) : str :=
  match s with
  | c :: s' => if ok c then [] else c :: takewhile_not ok s'
  | [] => []
  end.

(** The settings of the interpreter.  They are fixed when it starts (from
    its command line, its environment and the locale) and the scripts
    change none of them:
    - [int_max_str_digits], the limit on the number of digits [int] reads
      from a text ([sys.get_int_max_str_digits()]): 4300 unless set
      otherwise, [0] for no limit;
    - [stdout_encodes], the characters outside ASCII that the encoding of
      [sys.stdout], with its error handler, takes.  A character of ASCII
      is always taken;
    - [stdout_error], the message of the [UnicodeEncodeError] for a text
      with a character the encoding does not take: it names the codec,
      the character and its position. *)
Class Interpreter : Type := {
  int_max_str_digits : nat;
  stdout_encodes : N -> bool;
  stdout_error : str -> str
}.

(** How a [UnicodeEncodeError] shows a character. *)
Definition escaped_char (c : N) : str :=
  if c <=? 255 then lit "\x" ++ fmt_0x 2 c
  else if c <=? 65535 then lit "\u" ++ fmt_0x 4 c
  else lit "\U" ++ fmt_0x 8 c.

(** The message of a codec for the text [s], of which it does not take the
    characters that fail [ok]: it names the first run of them, [pos] being
    the position of the head of [s]. *)
Fixpoint codec_error (codec reason : str) (ok : N -> bool) (s : str) (pos : nat) : str :=
  match s with
  | [] => []
  | c :: s' =>
      if ok c then codec_error codec reason ok s' (S pos)
      else
        let run := length (takewhile_not ok s') in
        lit "'" ++ codec ++ lit "' codec can't encode "
        ++ match run with
           | O => lit "character '" ++ escaped_char c ++ lit "' in position "
                    ++ str_of_int (Z.of_nat pos)
           | S _ => lit "characters in position " ++ str_of_int (Z.of_nat pos)
                    ++ lit "-" ++ str_of_int (Z.of_nat (pos + run))
           end
        ++ lit ": " ++ reason
  end.

(** The default limit of [int], and a standard output in ASCII. *)
Definition ascii_stdout : Interpreter :=
  {| int_max_str_digits := 4300;
     stdout_encodes := fun _ => false;
     stdout_error := fun s =>
       codec_error (lit "ascii") (lit "ordinal not in range(128)") (fun c => c <? 128) s 0 |}.

Definition stdout_accepts {I : Interpreter} (c : N) : bool :=
  (c <? 128) || stdout_encodes c.

Definition stdout_writable {I : Interpreter} (s : str) : bool :=
  forallb stdout_accepts s.

(** [sys.stdout.write(s)]: the text is encoded as a whole before any of it
    is written, so a text with a character the encoding does not take
    raises [UnicodeEncodeError] and leaves the output as it was.  [stdout]
    is the text written, before its encoding. *)
Definition stdout_write {I : Interpreter} (s : str) : M unit :=
  fun p =>
    if stdout_writable s then (Ok tt, with_stdout (stdout p ++ s) p)
    else (Raise (UnicodeEncodeError (stdout_error s)), p).

(** [print(a, b, ...)]: every argument is written on its own, with a space
    written before each but the first, and then the newline. *)
Fixpoint print_args {I : Interpreter} (args : list str) : M unit :=
  match args with
  | [] => ret tt
  | [a] => stdout_write a
  | a :: rest =>
      do stdout_write a then
      do stdout_write (lit " ") then
      print_args rest
  end.

Definition print {I : Interpreter} (args : list str) : M unit :=
  do print_args args then
  stdout_write [NL].

(** [os.getenv(key)] *)
Definition getenv (key : str) : M (option str) :=
  fun p => (Ok (environ p !! key), p).

(** [sys.exit(msg)] *)
Definition sys_exit {A} (msg : str) : M A := raise (SystemExit msg).

(** [load_dotenv()]: every binding of the .env file whose key the
    environment does not have yet is added to the environment; a variable
    already set keeps its value. *)
Definition load_dotenv : M unit :=
  fun p => (Ok tt, with_environ (environ p ∪ dotenv_file p) p).

(** [for _ in range(n): body] *)
Fixpoint for_range (n : nat) (body : M unit) : M unit :=
  match n with
  | O => ret tt
  | S n' => do body then for_range n' body
  end.

(** [range(z)] is empty for [z <= 0]. *)
Definition range_len (z : Z) : nat := Z.to_nat z.

(** ** How a script ends

    The interpreter turns the way the module body finished into an exit
    status: [0] when it ran to its end; for [sys.exit(text)], the only form
    the scripts use, the text on standard error and status [1]; for any other
    exception its report on standard error and status [1].  Of the report
    only the final line, the exception and its message, is kept (the stack
    frames before it name files of the installation). *)

Record Exit : Type := { status : Z; out : str; err : str }.

Definition report (e : exn) : str :=
  match e with
  | IndexError msg => lit "IndexError: " ++ msg ++ [NL]
  | ValueError msg => lit "ValueError: " ++ msg ++ [NL]
  | UnicodeEncodeError msg => lit "UnicodeEncodeError: " ++ msg ++ [NL]
  | SystemExit _ => []
  end.

Definition run_script (body : M unit) (p : Proc) : Exit :=
  match body p with
  | (Ok _, p') => {| status := 0; out := stdout p'; err := stderr p' |}
  | (Raise (SystemExit msg), p') =>
      {| status := 1; out := stdout p'; err := stderr p' ++ msg ++ [NL] |}
  | (Raise e, p') => {| status := 1; out := stdout p'; err := stderr p' ++ report e |}
  end.

(** ** Built-ins: [repr] and [int] of text

    Both consult the interpreter's Unicode character database outside ASCII;
    the database is a parameter, and inside ASCII the definitions decide on
    their own. *)

Class Unicode : Type := {
  isprintable : N -> bool;       (* Py_UNICODE_ISPRINTABLE *)
  isspace : N -> bool;           (* Py_UNICODE_ISSPACE *)
  to_decimal : N -> option N     (* Py_UNICODE_TODECIMAL, a digit value below 10 *)
}.

(** A database that knows nothing outside ASCII. *)
Definition ascii_only : Unicode :=
  {| isprintable := fun _ => false; isspace := fun _ => false; to_decimal := fun _ => None |}.


Section Builtins.
Context {U : Unicode} {I : Interpreter}.

Definition QUOTE : N := 39.      (* single quote *)
Definition DQUOTE : N := 34.     (* double quote *)
Definition BACKSLASH : N := 92.

Definition mem (c : N) (s : str) : bool := existsb (N.eqb c) s.

(** One character of [repr(s)], [quote] being the delimiter chosen. *)
Definition repr_char (quote c : N) : str :=
  if (c =? quote) || (c =? BACKSLASH) then [BACKSLASH; c]
  else if c =? 9 then lit "\t"
  else if c =? 10 then lit "\n"
  else if c =? 13 then lit "\r"
  else if (c <? 32) || (c =? 127) then lit "\x" ++ fmt_0x 2 c
  else if c <? 127 then [c]
  else if isprintable c then [c]
  else if c <=? 255 then lit "\x" ++ fmt_0x 2 c
  else if c <=? 65535 then lit "\u" ++ fmt_0x 4 c
  else lit "\U" ++ fmt_0x 8 c.

(** [repr(s)]: single quotes, unless the text has a single quote and no
    double quote. *)
Definition repr (s : str) : str :=
  let quote := if mem QUOTE s && negb (mem DQUOTE s) then DQUOTE else QUOTE in
  [quote] ++ concat (map (repr_char quote) s) ++ [quote].

(** [s[:n]] for [n >= 0]: a slice stops at the end of the text. *)
Definition slice_to (n : nat) (s : str) : str := firstn n s.

(** [xs[i]] for [i >= 0] *)
Definition index {A} (xs : list A) (i : nat) : M A :=
  match xs !! i with
  | Some x => ret x
  | None => raise (IndexError (lit "list index out of range"))
  end.

Definition ascii_space (c : N) : bool := (c =? 32) || ((9 <=? c) && (c <=? 13)).

Definition is_dec (c : N) : bool := (48 <=? c) && (c <=? 57).

(** [int] first maps every non-ASCII space to a blank and every non-ASCII
    decimal digit to its ASCII digit; anything else outside ASCII becomes
    a character no numeral has. *)
Definition to_ascii_numeral (s : str) : str :=
  map (fun c =>
         if c <? 127 then c
         else if isspace c then 32
         else match to_decimal c with
              | Some d => 48 + d
              | None => 63
              end) s.

Fixpoint lstrip (s : str) : str :=
  match s with
  | c :: s' => if ascii_space c then lstrip s' else s
  | [] => []
  end.

Definition strip (s : str) : str := rev (lstrip (rev (lstrip s))).

(** The digits of a decimal literal; a single underscore may stand between
    two digits.  [after_digit] tells whether the previous character was a
    digit. *)
Fixpoint int_digits (s : str) (acc : N) (after_digit : bool) : option N :=
  match s with
  | [] => if after_digit then Some acc else None
  | c :: s' =>
      if c =? 95
      then if after_digit then int_digits s' acc false else None
      else if is_dec c then int_digits s' (acc * 10 + (c - 48)) true
      else None
  end.

(** The number of digits of a literal; leading zeros count, underscores do
    not. *)
Definition count_digits (s : str) : nat := length (List.filter is_dec s).

(** A numeral of more than 640 digits is refused when a limit is set and it
    has more digits than the limit. *)
Definition over_limit (digits : nat) : bool :=
  (640 <? digits)%nat && (0 <? int_max_str_digits)%nat
  && (int_max_str_digits <? digits)%nat.

(** The literal [int] accepts: blanks around it, a sign, the digits, no
    more of them than the limit allows. *)
Definition int_literal (s : str) : option Z :=
  let t := strip (to_ascii_numeral s) in
  match t with
  | c :: ds =>
      if over_limit (count_digits t) then None
      else if c =? 45 then option_map (fun n => (- Z.of_N n)%Z) (int_digits ds 0 false)
      else if c =? 43 then option_map Z.of_N (int_digits ds 0 false)
      else option_map Z.of_N (int_digits t 0 false)
  | [] => None
  end.

(** The digits [int] has seen when it checks the limit: those of the run of
    digits and underscores at the start of the numeral.  A numeral that
    starts with an underscore, doubles one, or ends its run with one is
    given up before the check. *)
Fixpoint digit_run (s : str) (after_underscore : bool) (count : nat) : option nat :=
  match s with
  | c :: s' =>
      if c =? 95
      then if after_underscore then None else digit_run s' true count
      else if is_dec c then digit_run s' false (S count)
      else if after_underscore then None else Some count
  | [] => if after_underscore then None else Some count
  end.

Definition unsigned (t : str) : str :=
  match t with
  | c :: ds => if (c =? 45) || (c =? 43) then ds else t
  | [] => []
  end.

(** What the [ValueError] of [int] says: that the limit is exceeded, when
    the check of the limit is reached and fails; otherwise that the literal
    is invalid, with at most 200 characters of its [repr]. *)
Definition int_error (s : str) : str :=
  let invalid :=
    lit "invalid literal for int() with base 10: " ++ firstn 200 (repr s) in
  match unsigned (strip (to_ascii_numeral s)) with
  | [] => invalid
  | c :: ds =>
      match (if c =? 95 then None else digit_run (c :: ds) false 0) with
      | Some digits =>
          if over_limit digits
          then lit "Exceeds the limit (" ++ str_of_int (Z.of_nat int_max_str_digits)
                 ++ lit " digits) for integer string conversion: value has "
                 ++ str_of_int (Z.of_nat digits)
                 ++ lit " digits; use sys.set_int_max_str_digits() to increase the limit"
          else invalid
      | None => invalid
      end
  end.

(** [int(s)] for a text [s] *)
Definition int (s : str) : M Z :=
  match int_literal s with
  | Some z => ret z
  | None => raise (ValueError (int_error s))
  end.

End Builtins.

Example int_literal_3 : @int_literal ascii_only ascii_stdout (lit "3") = Some 3%Z.
Proof. reflexivity. Qed.

Example int_literal_neg :
  @int_literal ascii_only ascii_stdout (lit " -12_0 ") = Some (-120)%Z.
Proof. reflexivity. Qed.

Example int_literal_bad :
  map (@int_literal ascii_only ascii_stdout)
    [lit ""; lit "abc"; lit "1.5"; lit "- 3"; lit "1__0"; lit "_1"; lit "1_"]
  = [None; None; None; None; None; None; None].
Proof. reflexivity. Qed.

(** The limit: 4300 digits are read, 4301 are not, zeros and all; without a
    limit they are. *)
Example int_literal_limit :
  (@int_literal ascii_only ascii_stdout (repeat 48 4300),
   @int_literal ascii_only ascii_stdout (repeat 48 4301),
   @int_literal ascii_only {| int_max_str_digits := 0; stdout_encodes := fun _ => false;
                               stdout_error := fun _ => [] |}
     (repeat 48 4301))
  = (Some 0%Z, None, Some 0%Z).
Proof. vm_compute. reflexivity. Qed.

Example int_error_limit :
  @int_error ascii_only ascii_stdout (lit " +" ++ repeat 49 5000 ++ lit "x")
  = lit "Exceeds the limit (4300 digits) for integer string conversion: value has 5000 digits; use sys.set_int_max_str_digits() to increase the limit".
Proof. vm_compute. reflexivity. Qed.

Example int_error_invalid :
  (@int_error ascii_only ascii_stdout (repeat 49 5000 ++ lit "_"),
   @int_error ascii_only ascii_stdout (lit "ten"))
  = (lit "invalid literal for int() with base 10: '" ++ repeat 49 199,
     lit "invalid literal for int() with base 10: 'ten'").
Proof. vm_compute. reflexivity. Qed.

Example repr_plain : @repr ascii_only (lit "-----BEGIN") = lit "'-----BEGIN'".
Proof. reflexivity. Qed.

Example repr_newline : @repr ascii_only [65; 10; 66; 39] = [34; 65; 92; 110; 66; 39; 34].
Proof. reflexivity. Qed.

(** ** Library: [random] and [uuid] *)

(** [random.getrandbits(k)]: a number below [2^k], every one of them
    possible. *)
Definition getrandbits (k : N) : Gen N :=
  fun o => let (x, o') := draw o in (x mod 2 ^ k, o').

(** [Random._randbelow(n)] for [n > 0]: a number below [n]. *)
Definition randbelow (n : N) : Gen N :=
  fun o => let (x, o') := draw o in (x mod n, o').

(** [Random.randrange(start, stop)] *)
Definition randrange (start stop : Z) : M Z :=
  let width := (stop - start)%Z in
  if (0 <? width)%Z
  then let* r := sample (randbelow (Z.to_N width)) in ret (start + Z.of_N r)%Z
  else raise (ValueError (lit "empty range for randrange()")).

(** [s[a:b]] for [0 <= a <= b] *)
Definition slice (a b : nat) (s : str) : str := firstn (b - a) (skipn a s).

(** [uuid.uuid4()]: 128 random bits with the variant and version fields
    set. *)
Definition uuid4 : Gen N :=
  fun o =>
    let (x, o') := getrandbits 128 o in
    let x := N.ldiff x (N.shiftl 0xc000 48) in
    let x := N.lor x (N.shiftl 0x8000 48) in
    let x := N.ldiff x (N.shiftl 0xf000 64) in
    let x := N.lor x (N.shiftl 4 76) in
    (x, o').

(** [str(u)] for a UUID [u] *)
Definition uuid_str (x : N) : str :=
  let h := fmt_0x 32 x in
  slice 0 8 h ++ lit "-" ++ slice 8 12 h ++ lit "-" ++ slice 12 16 h ++ lit "-"
    ++ slice 16 20 h ++ lit "-" ++ skipn 20 h.

(** ** Library: [datetime] *)

Record date : Type := { year : Z; month : Z; day : Z }.

Record datetime : Type := {
  on : date; hour : Z; minute : Z; second : Z; microsecond : Z
}.

Definition is_leap (y : Z) : bool :=
  ((y mod 4 =? 0) && (negb (y mod 100 =? 0) || (y mod 400 =? 0)))%Z.

Definition days_in_month (y m : Z) : Z :=
  (if m =? 2 then (if is_leap y then 29 else 28)
   else if (m =? 4) || (m =? 6) || (m =? 9) || (m =? 11) then 30
   else 31)%Z.

(** The constructor [date(y, m, d)] checks its arguments. *)
Definition date_new (y m d : Z) : M date :=
  if negb ((1 <=? y) && (y <=? 9999))%Z
  then raise (ValueError (lit "year " ++ str_of_int y ++ lit " is out of range"))
  else if negb ((1 <=? m) && (m <=? 12))%Z
  then raise (ValueError (lit "month must be in 1..12"))
  else if negb ((1 <=? d) && (d <=? days_in_month y m))%Z
  then raise (ValueError (lit "day is out of range for month"))
  else ret {| year := y; month := m; day := d |}.

(** [date.isoformat()] *)
Definition date_isoformat (d : date) : str :=
  fmt_0d 4 (year d) ++ lit "-" ++ fmt_0d 2 (month d) ++ lit "-" ++ fmt_0d 2 (day d).

(** [datetime.isoformat()] of a naive datetime: the fraction is left out
    when the microseconds are zero. *)
Definition datetime_isoformat (t : datetime) : str :=
  date_isoformat (on t) ++ lit "T"
    ++ fmt_0d 2 (hour t) ++ lit ":" ++ fmt_0d 2 (minute t) ++ lit ":" ++ fmt_0d 2 (second t)
    ++ (if (microsecond t =? 0)%Z then [] else lit "." ++ fmt_0d 6 (microsecond t)).

(** The system clock behind [datetime.utcnow()]. *)
Class Clock : Type := { utcnow : Gen datetime }.

Example isoformat_sample :
  datetime_isoformat
    {| on := {| year := 2024; month := 2; day := 29 |};
       hour := 7; minute := 5; second := 0; microsecond := 1500 |}
  = lit "2024-02-29T07:05:00.001500".
Proof. reflexivity. Qed.

(** ** Library: [rapidjson.dumps]

    The writer is used with its defaults: no white space between tokens, and
    ASCII output, so every character outside ASCII is written as a [\u]
    escape (a surrogate pair above the basic plane).  Text is handed to the
    writer as UTF-8, and text that has no UTF-8 encoding (a lone surrogate)
    is refused before anything is written. *)

Definition encodable_char (c : N) : bool :=
  (c <? 0xD800) || ((0xE000 <=? c) && (c <? 0x110000)).

Definition encodable (s : str) : bool := forallb encodable_char s.

Definition u_escape (c : N) : str :=
  lit "\u" ++ map HEX_char
    [N.shiftr c 12 mod 16; N.shiftr c 8 mod 16; N.shiftr c 4 mod 16; c mod 16].

Definition json_char (c : N) : str :=
  if 0x80 <=? c then
    if (c <=? 0xD7FF) || ((0xE000 <=? c) && (c <=? 0xFFFF)) then u_escape c
    else
      let s := c - 0x10000 in
      u_escape (N.shiftr s 10 + 0xD800) ++ u_escape (N.land s 0x3FF + 0xDC00)
  else if c =? 34 then lit "\" ++ [34]
  else if c =? 92 then lit "\\"
  else if c =? 8 then lit "\b"
  else if c =? 9 then lit "\t"
  else if c =? 10 then lit "\n"
  else if c =? 12 then lit "\f"
  else if c =? 13 then lit "\r"
  else if c <? 32 then lit "\u00" ++ map HEX_char [N.shiftr c 4; N.land c 15]
  else [c].

Definition json_string (s : str) : option str :=
  if encodable s then Some ([34] ++ concat (map json_char s) ++ [34]) else None.

Fixpoint json_value (v : pyval) : option str :=
  match v with
  | PNone => Some (lit "null")
  | PInt z => Some (str_of_int z)
  | PStr s => json_string s
  | PDict items =>
      option_map (fun ms => lit "{" ++ join (lit ",") ms ++ lit "}")
        ((fix members (l : list (str * pyval)) : option (list str) :=
            match l with
            | [] => Some []
            | (k, x) :: l' =>
                match json_string k, json_value x, members l' with
                | Some a, Some b, Some c => Some ((a ++ lit ":" ++ b) :: c)
                | _, _, _ => None
                end
            end) items)
  end.

(** The members of an object, as [json_value] writes them. *)
Definition json_members : list (str * pyval) -> option (list str) :=
  fix members (l : list (str * pyval)) : option (list str) :=
    match l with
    | [] => Some []
    | (k, x) :: l' =>
        match json_string k, json_value x, members l' with
        | Some a, Some b, Some c => Some ((a ++ lit ":" ++ b) :: c)
        | _, _, _ => None
        end
    end.

(** Proper text all through a value: what the writer accepts. *)
Inductive text_ok : pyval -> Prop :=
| text_ok_none : text_ok PNone
| text_ok_int z : text_ok (PInt z)
| text_ok_str s : encodable s = true -> text_ok (PStr s)
| text_ok_dict items :
    Forall (fun kv => encodable kv.1 = true) items ->
    Forall (fun kv => text_ok kv.2) items ->
    text_ok (PDict items).

(** The message for a text that has no UTF-8 encoding. *)
Definition utf8_error (s : str) : str :=
  codec_error (lit "utf-8") (lit "surrogates not allowed") encodable_char s 0.

(** The first text of a value, in the order the writer meets them, that
    has no UTF-8 encoding. *)
Fixpoint first_refused (v : pyval) : option str :=
  match v with
  | PNone | PInt _ => None
  | PStr s => if encodable s then None else Some s
  | PDict items =>
      (fix members (l : list (str * pyval)) : option str :=
         match l with
         | [] => None
         | (k, x) :: l' =>
             if encodable k
             then match first_refused x with
                  | Some s => Some s
                  | None => members l'
                  end
             else Some k
         end) items
  end.

(** The first refused text among the members of an object, as
    [first_refused] finds it. *)
Definition refused_members : list (str * pyval) -> option str :=
  fix members (l : list (str * pyval)) : option str :=
    match l with
    | [] => None
    | (k, x) :: l' =>
        if encodable k
        then match first_refused x with
             | Some s => Some s
             | None => members l'
             end
        else Some k
    end.

(** [json.dumps(v)] *)
Definition dumps (v : pyval) : M str :=
  match json_value v with
  | Some s => ret s
  | None => raise (UnicodeEncodeError (utf8_error (default [] (first_refused v))))
  end.

Example dumps_error_sample :
  option_map utf8_error
    (first_refused (PDict [(lit "a", PStr (lit "ok")); (lit "b", PStr (lit "x" ++ [0xD800]))]))
  = Some (lit "'utf-8' codec can't encode character '\ud800' in position 1: surrogates not allowed").
Proof. reflexivity. Qed.

Example json_value_sample :
  json_value (PDict [(lit "item", PStr (lit "Renault M" ++ [233] ++ lit "gane"));
                     (lit "days", PInt 7);
                     (lit "phone", PNone);
                     (lit "who", PDict [(lit "name", PStr [65; 10; 34])])])
  = Some (lit "{" ++ [34] ++ lit "item" ++ [34] ++ lit ":" ++ [34]
            ++ lit "Renault M\u00E9gane" ++ [34] ++ lit ","
            ++ [34] ++ lit "days" ++ [34] ++ lit ":7,"
            ++ [34] ++ lit "phone" ++ [34] ++ lit ":null,"
            ++ [34] ++ lit "who" ++ [34] ++ lit ":{" ++ [34] ++ lit "name" ++ [34] ++ lit ":"
            ++ [34] ++ lit "A\n\" ++ [34] ++ [34] ++ lit "}}").
Proof. reflexivity. Qed.

(** ** Library: [Faker] and [optional_faker]

    [fake] is the module-level [Faker()] instance of the generator.  Its
    locale providers draw from word lists that belong to the library, not to
    this repository: they are the methods of [fake.Provider], any functions
    of the oracle that meet the provider's contract.  The script has no
    handler around these calls and relies on them to return; so does the
    model, in their type.  The generic methods ([random_int],
    [random_element], and [none_or], which [optional_faker] adds) are
    written out. *)

Module fake.

Class Provider : Type := {
  state_abbr : Gen str;
  name : Gen str;
  street_address : Gen str;
  city : Gen str;
  postalcode_in_state : str -> Gen str;
  phone_number : Gen str;
  email : Gen str;
  (** [in_state st pc]: [pc] is a postal code of the state [st]. *)
  in_state : str -> str -> Prop;
  (** Contract: for a state the provider can draw, the postal code drawn
      for it is one of its postal codes. *)
  postalcode_in_state_valid :
    forall o o', in_state (state_abbr o).1 (postalcode_in_state (state_abbr o).1 o').1;
  (** Contract: the provider returns proper text (no lone surrogate). *)
  state_abbr_text : forall o, encodable (state_abbr o).1 = true;
  name_text : forall o, encodable (name o).1 = true;
  street_address_text : forall o, encodable (street_address o).1 = true;
  city_text : forall o, encodable (city o).1 = true;
  postalcode_text : forall st o, encodable (postalcode_in_state st o).1 = true;
  phone_number_text : forall o, encodable (phone_number o).1 = true;
  email_text : forall o, encodable (email o).1 = true
}.

(** [fake.random_int(min, max)] is [randrange(min, max + 1)]. *)
Definition random_int (min max : Z) : M Z := randrange min (max + 1).

(** [fake.random_element(elements)]: one element, chosen by a random
    position; no element can be taken from an empty sequence. *)
Definition random_element {A} (elements : list A) : M A :=
  let* i := sample (randbelow (N.of_nat (length elements))) in
  match elements !! N.to_nat i with
  | Some x => ret x
  | None => raise (IndexError (lit "tuple index out of range"))
  end.

(** [fake.none_or(value)]: the value, already computed by the caller, or
    [None], by a draw of its own. *)
Definition none_or (value : pyval) : M pyval :=
  let* coin := sample draw in
  ret (if N.even coin then PNone else value).

End fake.

(** ** [data_generator.py] *)

Module data_generator.
Section Script.
Context {U : Unicode} {I : Interpreter} {F : fake.Provider} {C : Clock}.

Definition inventory : list str := [
  lit "Peugeot 208"; lit "Peugeot 3008"; lit "Citroen C3"; lit "Renault Megane";
  lit "Fiat 500e"; lit "Maserati Grecale Folgore"; lit "Renault M" ++ [233] ++ lit "gane E-Tech";
  lit "Peugeot e-208"; lit "Peugeot e-3008"; lit "Citroen " ++ [235] ++ lit "-C4"; lit "Citroen Ami";
  lit "DS 3 E-Tense"; lit "DS 4 E-Tense"; lit "DS 7 E-Tense"; lit "DS 9 E-Tense";
  lit "Fiat 600e"; lit "Jeep Avenger EV"; lit "Opel Mokka-e"; lit "Opel Corsa-e";
  lit "Opel Astra Electric"; lit "Peugeot e-2008"; lit "Citroen " ++ [235] ++ lit "-Berlingo";
  lit "Fiat E-Ulysse"; lit "Peugeot e-Rifter"; lit "Jeep Recon EV"; lit "Jeep Wagoneer S";
  lit "Maserati GranTurismo Folgore"; lit "Maserati MC20 Folgore"; lit "Opel Zafira-e Life"
].

(** The dictionary [client_support] that [print_client_support] builds.
    The entries are evaluated in the order written, and the argument of
    every [none_or] before the call. *)
Definition client_support : M pyval :=
  let* state := sample fake.state_abbr in
  let* txid := sample uuid4 in
  let* rfid := sample (getrandbits 96) in
  let* item := fake.random_element inventory in
  let* purchase_time := sample utcnow in
  let* expiration_time := date_new 2023 6 1 in
  let* days := fake.random_int 1 7 in
  let* name := sample fake.name in
  let* street_address := sample fake.street_address in
  let* city := sample fake.city in
  let* postalcode := sample (fake.postalcode_in_state state) in
  let* address :=
    fake.none_or (PDict [(lit "street_address", PStr street_address);
                         (lit "city", PStr city);
                         (lit "state", PStr state);
                         (lit "postalcode", PStr postalcode)]) in
  let* phone_number := sample fake.phone_number in
  let* phone := fake.none_or (PStr phone_number) in
  let* email_address := sample fake.email in
  let* email := fake.none_or (PStr email_address) in
  let* contact_name := sample fake.name in
  let* contact_phone := sample fake.phone_number in
  let* emergency_contact :=
    fake.none_or (PDict [(lit "name", PStr contact_name);
                         (lit "phone", PStr contact_phone)]) in
  ret (PDict [(lit "txid", PStr (uuid_str txid));
              (lit "rfid", PStr (hex (Z.of_N rfid)));
              (lit "item", PStr item);
              (lit "purchase_time", PStr (datetime_isoformat purchase_time));
              (lit "expiration_time", PStr (date_isoformat expiration_time));
              (lit "days", PInt days);
              (lit "name", PStr name);
              (lit "address", address);
              (lit "phone", phone);
              (lit "email", email);
              (lit "emergency_contact", emergency_contact)]).

Definition print_client_support : M unit :=
  let* client_support := client_support in
  let* j := dumps client_support in
  let d := j ++ [NL] in
  stdout_write d.

(** The block under [if __name__ == "__main__"]. *)
Definition main (argv : list str) : M unit :=
  let args := skipn 1 argv in
  let* arg := index args 0 in
  let* total_count := int arg in
  do for_range (range_len total_count) print_client_support then
  print [lit ""].

(** The whole script, run with the command line [argv]
    ([argv[0]] is the script). *)
Definition script (argv : list str) : M unit :=
  do load_dotenv then
  main argv.

End Script.
End data_generator.

(** ** [load_key.py] *)

Module load_key.
Section Script.
Context {U : Unicode} {I : Interpreter}.

Definition KEY : str := lit "SNOWFLAKE_PRIVATE_KEY".

Definition script : M unit :=
  do load_dotenv then
  let* pem := getenv KEY in
  match pem with
  | None => sys_exit (lit "SNOWFLAKE_PRIVATE_KEY not set")
  | Some pem => print [lit "First 60 chars:"; repr (slice_to 60 pem)]
  end.

End Script.
End load_key.

(** * Properties *)

(** ** Numerals *)

Lemma digits_aux_app fuel base n acc :
  digits_aux fuel base n acc = digits_aux fuel base n [] ++ acc.
Proof.
  revert n acc. induction fuel as [|fuel IH]; intros n acc; simpl; [done|].
  destruct (n / base =? 0); [done|].
  rewrite (IH _ (_ :: acc)), (IH _ [_]), <- app_assoc. done.
Qed.

Lemma digits_aux_bound fuel base n :
  base ≠ 0 -> Forall (fun d => d < base) (digits_aux fuel base n []).
Proof.
  intros Hb. revert n. induction fuel as [|fuel IH]; intros n; simpl; [constructor|].
  assert (n mod base < base) by (apply N.mod_lt; done).
  destruct (n / base =? 0); [by repeat constructor|].
  rewrite digits_aux_app. apply Forall_app. split; [apply IH | by repeat constructor].
Qed.

Lemma digits_aux_nonempty fuel base n : digits_aux (S fuel) base n [] ≠ [].
Proof.
  simpl. destruct (n / base =? 0); [done|].
  rewrite digits_aux_app. intros H. by apply app_eq_nil in H as [_ ?].
Qed.

Lemma of_digits_snoc base ds d : of_digits base (ds ++ [d]) = of_digits base ds * base + d.
Proof. unfold of_digits. by rewrite fold_left_app. Qed.

Lemma of_digits_digits_aux fuel base n :
  2 <= base -> n < 2 ^ N.of_nat fuel ->
  of_digits base (digits_aux (S fuel) base n []) = n.
Proof.
  intros Hb. revert n. induction fuel as [|fuel IH]; intros n Hn.
  - simpl in Hn. assert (n = 0) as -> by lia.
    unfold digits_aux, of_digits.
    rewrite N.Div0.div_0_l, N.Div0.mod_0_l. done.
  - change (digits_aux (S (S fuel)) base n [])
      with (if n / base =? 0 then [n mod base]
            else digits_aux (S fuel) base (n / base) [n mod base]).
    destruct (N.eqb_spec (n / base) 0) as [Hq|Hq].
    + unfold of_digits. simpl.
      apply N.div_small_iff in Hq; [|lia]. by rewrite N.mod_small.
    + rewrite digits_aux_app, of_digits_snoc, IH.
      * rewrite N.mul_comm. symmetry. apply N.div_mod. lia.
      * assert (n / base <= n / 2) by (apply N.div_le_compat_l; lia).
        assert (n / 2 < 2 ^ N.of_nat fuel); [|lia].
        apply N.Div0.div_lt_upper_bound.
        rewrite Nat2N.inj_succ, N.pow_succ_r' in Hn. done.
Qed.

Lemma size_fuel n : n < 2 ^ N.of_nat (N.to_nat (N.size n)).
Proof. rewrite N2Nat.id. apply N.size_gt. Qed.

(** The digits of a numeral are digits of its base. *)
Lemma digits_bound base n : base ≠ 0 -> Forall (fun d => d < base) (digits base n).
Proof. apply digits_aux_bound. Qed.

Lemma digits_nonempty base n : digits base n ≠ [].
Proof. apply digits_aux_nonempty. Qed.

(** A numeral denotes the number it was printed from. *)
Lemma of_digits_digits base n : 2 <= base -> of_digits base (digits base n) = n.
Proof. intros Hb. apply of_digits_digits_aux; [done | apply size_fuel]. Qed.

Lemma digits_aux_length fuel base n w :
  2 <= base -> n < 2 ^ N.of_nat fuel -> n < base ^ N.of_nat w -> (0 < w)%nat ->
  (length (digits_aux (S fuel) base n []) <= w)%nat.
Proof.
  intros Hb. revert n w. induction fuel as [|fuel IH]; intros n w Hf Hw Hpos.
  - simpl in Hf. assert (n = 0) as -> by lia.
    unfold digits_aux. rewrite N.Div0.div_0_l. simpl. lia.
  - change (digits_aux (S (S fuel)) base n [])
      with (if n / base =? 0 then [n mod base]
            else digits_aux (S fuel) base (n / base) [n mod base]).
    destruct (N.eqb_spec (n / base) 0) as [Hq|Hq]; [simpl; lia|].
    rewrite digits_aux_app, length_app. cbn [length].
    destruct w as [|w]; [lia|].
    rewrite Nat2N.inj_succ, N.pow_succ_r' in Hw.
    destruct w as [|w].
    { exfalso. apply Hq, N.div_small.
      change (N.of_nat 0) with 0 in Hw. rewrite N.pow_0_r in Hw. lia. }
    assert ((length (digits_aux (S fuel) base (n / base) []) <= S w)%nat); [|lia].
    apply IH; [| |lia].
    + assert (n / base <= n / 2) by (apply N.div_le_compat_l; lia).
      assert (n / 2 < 2 ^ N.of_nat fuel); [|lia].
      apply N.Div0.div_lt_upper_bound.
      rewrite Nat2N.inj_succ, N.pow_succ_r' in Hf. done.
    + by apply N.Div0.div_lt_upper_bound.
Qed.

(** A number below [base^w] has at most [w] digits. *)
Lemma digits_length base n w :
  2 <= base -> n < base ^ N.of_nat w -> (0 < w)%nat -> (length (digits base n) <= w)%nat.
Proof. intros Hb Hn Hw. apply digits_aux_length; [done | apply size_fuel | done | done]. Qed.

Lemma length_zfill w s : (length s <= w)%nat -> length (zfill w s) = w.
Proof. intros Hs. unfold zfill. rewrite length_app, repeat_length. lia. Qed.

Lemma length_fmt_0x w n : n < 16 ^ N.of_nat w -> (0 < w)%nat -> length (fmt_0x w n) = w.
Proof.
  intros Hn Hw. apply length_zfill. rewrite length_map. by apply digits_length.
Qed.

Lemma of_digits_app base l1 l2 :
  of_digits base (l1 ++ l2)
  = of_digits base l1 * base ^ N.of_nat (length l2) + of_digits base l2.
Proof.
  induction l2 as [|d l2 IH] using rev_ind.
  - rewrite app_nil_r. unfold of_digits at 3. simpl. lia.
  - rewrite app_assoc, !of_digits_snoc, IH, length_app. simpl length.
    rewrite Nat.add_1_r, Nat2N.inj_succ, N.pow_succ_r'. lia.
Qed.

Lemma of_digits_lt base l :
  Forall (fun d => d < base) l -> of_digits base l < base ^ N.of_nat (length l).
Proof.
  induction l as [|d l IH] using rev_ind; intros Hl.
  - unfold of_digits. simpl. lia.
  - apply Forall_app in Hl as [Hl Hd]. apply Forall_cons in Hd as [Hd _].
    cbv beta in Hd. specialize (IH Hl).
    rewrite of_digits_snoc, length_app. simpl length.
    rewrite Nat.add_1_r, Nat2N.inj_succ, N.pow_succ_r'. nia.
Qed.

(** A number from [base^w] on has more than [w] digits. *)
Lemma digits_length_gt base n w :
  2 <= base -> base ^ N.of_nat w <= n -> (w < length (digits base n))%nat.
Proof.
  intros Hb Hn.
  pose proof (of_digits_lt base (digits base n) (digits_bound base n ltac:(lia))) as Hlt.
  rewrite of_digits_digits in Hlt by done.
  assert (base ^ N.of_nat w < base ^ N.of_nat (length (digits base n))) as H by lia.
  apply N.pow_lt_mono_r_iff in H; lia.
Qed.

Lemma hex_val_hex_char d : d < 16 -> hex_val (hex_char d) = Some d.
Proof.
  intros Hd. unfold hex_char, hex_val.
  destruct (N.ltb_spec d 10).
  - replace ((48 <=? 48 + d) && (48 + d <=? 57)) with true.
    + f_equal. lia.
    + symmetry. apply andb_true_iff. split; apply N.leb_le; lia.
  - replace ((48 <=? 87 + d) && (87 + d <=? 57)) with false.
    + replace ((97 <=? 87 + d) && (87 + d <=? 102)) with true.
      * f_equal. lia.
      * symmetry. apply andb_true_iff. split; apply N.leb_le; lia.
    + symmetry. apply andb_false_iff. right. apply N.leb_gt. lia.
Qed.

Lemma hex_digits_value_hex_chars ds acc :
  Forall (fun d => d < 16) ds ->
  hex_digits_value acc (map hex_char ds) = Some (fold_left (fun a d => a * 16 + d) ds acc).
Proof.
  intros H. revert acc. induction H as [|d ds Hd _ IH]; intros acc; simpl; [done|].
  by rewrite hex_val_hex_char, IH.
Qed.

(** Reading the digits [hex] printed gives the number back. *)
Lemma hex_digits_value_digits n : hex_digits_value 0 (map hex_char (digits 16 n)) = Some n.
Proof.
  rewrite hex_digits_value_hex_chars by (by apply digits_bound).
  f_equal. apply (of_digits_digits 16). lia.
Qed.

(** ** Text of numerals and of the JSON writer

    [plain c]: a printable ASCII character or DEL; in particular not a line
    break.  Everything the JSON writer emits is plain. *)

Definition plain (c : N) : Prop := 32 <= c <= 127.

Lemma plain_not_NL s : Forall plain s -> NL ∉ s.
Proof.
  intros H Hin. rewrite Forall_forall in H. apply H in Hin.
  unfold plain, NL in Hin. lia.
Qed.

Lemma plain_encodable s : Forall plain s -> encodable s = true.
Proof.
  intros H. apply forallb_forall. intros c Hc.
  rewrite Forall_forall in H. apply list_elem_of_In, H in Hc.
  unfold plain in Hc. unfold encodable_char.
  apply orb_true_iff. left. apply N.ltb_lt. lia.
Qed.

Lemma plain_lit_check (s : str) :
  forallb (fun c => (32 <=? c) && (c <=? 127)) s = true -> Forall plain s.
Proof.
  intros H. apply Forall_forall. intros c Hc.
  rewrite forallb_forall in H. apply list_elem_of_In, H in Hc.
  apply andb_true_iff in Hc as [H1 H2].
  apply N.leb_le in H1, H2. done.
Qed.

Ltac plain_lit := apply plain_lit_check; reflexivity.

Lemma plain_dec_chars ds : Forall (fun d => d < 10) ds -> Forall plain (map dec_char ds).
Proof.
  intros H. apply Forall_map. eapply Forall_impl; [exact H|].
  intros d Hd. cbv beta in Hd. unfold plain, dec_char. lia.
Qed.

Lemma plain_hex_char d : d < 16 -> plain (hex_char d).
Proof. intros Hd. unfold plain, hex_char. destruct (d <? 10); lia. Qed.

Lemma plain_HEX_char d : d < 16 -> plain (HEX_char d).
Proof. intros Hd. unfold plain, HEX_char. destruct (d <? 10); lia. Qed.

Lemma plain_hex_chars ds : Forall (fun d => d < 16) ds -> Forall plain (map hex_char ds).
Proof.
  intros H. apply Forall_map. eapply Forall_impl; [exact H|].
  intros d Hd. cbv beta in Hd. by apply plain_hex_char.
Qed.

Lemma plain_zfill w s : Forall plain s -> Forall plain (zfill w s).
Proof.
  intros H. unfold zfill. apply Forall_app. split; [|done].
  apply Forall_forall. intros c Hc. apply list_elem_of_In, repeat_spec in Hc as ->.
  unfold plain. lia.
Qed.

Lemma plain_str_of_int z : Forall plain (str_of_int z).
Proof.
  unfold str_of_int. apply Forall_app. split.
  - destruct (z <? 0)%Z; [plain_lit | constructor].
  - apply plain_dec_chars, digits_bound. lia.
Qed.

Lemma plain_fmt_0d w z : Forall plain (fmt_0d w z).
Proof.
  unfold fmt_0d. destruct (z <? 0)%Z.
  - apply Forall_app. split; [plain_lit|].
    apply plain_zfill, plain_dec_chars, digits_bound. lia.
  - apply plain_zfill, plain_dec_chars, digits_bound. lia.
Qed.

Lemma plain_fmt_0x w n : Forall plain (fmt_0x w n).
Proof. apply plain_zfill, plain_hex_chars, digits_bound. lia. Qed.

Lemma plain_hex z : Forall plain (hex z).
Proof.
  unfold hex. apply Forall_app. split.
  - destruct (z <? 0)%Z; [plain_lit | constructor].
  - apply Forall_app. split; [plain_lit|].
    apply plain_hex_chars, digits_bound. lia.
Qed.

Lemma plain_u_escape c : Forall plain (u_escape c).
Proof.
  unfold u_escape. apply Forall_app. split; [plain_lit|].
  repeat (apply List.Forall_cons; [apply plain_HEX_char; apply N.mod_lt; lia|]).
  apply List.Forall_nil.
Qed.

Lemma plain_json_char c : Forall plain (json_char c).
Proof.
  unfold json_char.
  destruct (N.leb_spec 0x80 c) as [Hhigh|Hlow].
  { destruct ((c <=? 0xD7FF) || ((0xE000 <=? c) && (c <=? 0xFFFF))).
    - apply plain_u_escape.
    - apply Forall_app. split; apply plain_u_escape. }
  repeat (match goal with
          | |- context [if ?b then _ else _] => destruct b eqn:?
          end; [plain_lit|]).
  destruct (N.ltb_spec c 32) as [Hctl|Hprint].
  - apply Forall_app. split; [plain_lit|].
    apply List.Forall_cons; [|apply List.Forall_cons; [|apply List.Forall_nil]];
      apply plain_HEX_char.
    + rewrite N.shiftr_div_pow2. apply N.Div0.div_lt_upper_bound. simpl. lia.
    + replace (N.land c 15) with (c mod 2 ^ 4) by (symmetry; apply (N.land_ones c 4)).
      apply N.mod_lt. done.
  - apply List.Forall_cons; [|apply List.Forall_nil]. unfold plain. lia.
Qed.

(** From [Some a = Some b] to [a = b], leaving literals folded. *)
Ltac some_eq :=
  let H := fresh in
  intros H; apply (inj Some) in H; subst.

Lemma json_value_dict items :
  json_value (PDict items)
  = option_map (fun ms => lit "{" ++ join (lit ",") ms ++ lit "}") (json_members items).
Proof. reflexivity. Qed.

Lemma json_members_cons k x l :
  json_members ((k, x) :: l)
  = match json_string k, json_value x, json_members l with
    | Some a, Some b, Some c => Some ((a ++ lit ":" ++ b) :: c)
    | _, _, _ => None
    end.
Proof. reflexivity. Qed.

Lemma plain_concat (ls : list str) : Forall (Forall plain) ls -> Forall plain (concat ls).
Proof.
  induction 1 as [|l ls Hl _ IH]; simpl; [constructor|].
  apply Forall_app. done.
Qed.

Lemma plain_join sep (ls : list str) :
  Forall plain sep -> Forall (Forall plain) ls -> Forall plain (join sep ls).
Proof.
  intros Hsep. induction 1 as [|l ls Hl Hls IH]; simpl; [constructor|].
  destruct ls as [|l' ls']; [done|].
  apply Forall_app. split; [done|]. apply Forall_app. done.
Qed.

Lemma plain_json_string s j : json_string s = Some j -> Forall plain j.
Proof.
  unfold json_string. destruct (encodable s); [|done].
  some_eq. apply List.Forall_cons; [unfold plain; lia|].
  apply Forall_app. split; [|plain_lit].
  apply plain_concat, Forall_map, Forall_forall. intros c _. apply plain_json_char.
Qed.

(** The writer emits plain characters only. *)
Lemma plain_json_value v j : json_value v = Some j -> Forall plain j.
Proof.
  revert j. induction v as [|z|s|items IH] using pyval_ind; intros j.
  - some_eq. plain_lit.
  - some_eq. apply plain_str_of_int.
  - apply plain_json_string.
  - rewrite json_value_dict.
    assert (forall ms, json_members items = Some ms -> Forall (Forall plain) ms) as Hms.
    { induction IH as [|[k x] l Hx _ IHl]; intros ms.
      - some_eq. constructor.
      - rewrite json_members_cons.
        destruct (json_string k) as [a|] eqn:Ha; [|done].
        destruct (json_value x) as [b|] eqn:Hb; [|done].
        destruct (json_members l) as [c|] eqn:Hc; [|done].
        some_eq. constructor; [|by apply IHl].
        apply Forall_app. split; [by eapply plain_json_string|].
        apply Forall_app. split; [plain_lit | by apply Hx]. }
    destruct (json_members items) as [ms|]; [|done].
    some_eq. apply Forall_app. split; [plain_lit|].
    apply Forall_app. split; [|plain_lit].
    apply plain_join; [plain_lit | by apply Hms].
Qed.

(** ** Writing to standard output

    Text of ASCII is written whatever the encoding of the output is. *)

Section Output.
Context {I : Interpreter}.

Lemma stdout_writable_ascii s : Forall (fun c => c < 128) s -> stdout_writable s = true.
Proof.
  intros H. apply forallb_forall. intros c Hc.
  rewrite Forall_forall in H. apply list_elem_of_In, H in Hc.
  unfold stdout_accepts. apply orb_true_iff. left. by apply N.ltb_lt.
Qed.

Lemma stdout_writable_plain s : Forall plain s -> stdout_writable s = true.
Proof.
  intros H. apply stdout_writable_ascii. eapply Forall_impl; [exact H|].
  intros c Hc. unfold plain in Hc. lia.
Qed.

Lemma stdout_writable_app s t :
  stdout_writable (s ++ t) = stdout_writable s && stdout_writable t.
Proof. apply forallb_app. Qed.

Lemma stdout_writable_NL : stdout_writable [NL] = true.
Proof. reflexivity. Qed.

Lemma stdout_write_writable s p :
  stdout_writable s = true -> stdout_write s p = (Ok tt, with_stdout (stdout p ++ s) p).
Proof. intros H. unfold stdout_write. by rewrite H. Qed.

Lemma stdout_write_refused s p :
  stdout_writable s = false
  -> stdout_write s p = (Raise (UnicodeEncodeError (stdout_error s)), p).
Proof. intros H. unfold stdout_write. by rewrite H. Qed.

(** [print('')] writes the newline. *)
Lemma print_empty p : print [lit ""] p = (Ok tt, with_stdout (stdout p ++ [NL]) p).
Proof.
  unfold print, bind. cbn [print_args].
  rewrite (stdout_write_writable (lit "")) by reflexivity.
  rewrite stdout_write_writable by reflexivity.
  destruct p. unfold with_stdout. simpl. by rewrite app_nil_r.
Qed.

End Output.


(** The writer accepts every value of proper text. *)
Lemma json_value_text_ok v : text_ok v -> exists j, json_value v = Some j.
Proof.
  induction v as [|z|s|items IH] using pyval_ind; intros Hv.
  - by eexists.
  - by eexists.
  - inversion Hv as [| |s' Hs|]; subst. unfold json_value, json_string. rewrite Hs. by eexists.
  - inversion Hv as [| | |items' Hkeys Hvals]; subst.
    rewrite json_value_dict.
    assert (exists ms, json_members items = Some ms) as [ms ->]; [|by eexists].
    clear Hv. induction items as [|[k x] l IHl]; [by eexists|].
    apply Forall_cons in IH as [Hx IH]. apply Forall_cons in Hkeys as [Hk Hkeys].
    apply Forall_cons in Hvals as [Hxt Hvals].
    rewrite json_members_cons.
    unfold json_string at 1. simpl in Hk, Hx, Hxt. rewrite Hk.
    destruct (Hx Hxt) as [b ->].
    destruct (IHl IH Hkeys Hvals) as [c ->].
    by eexists.
Qed.

Lemma refused_members_cons k x l :
  refused_members ((k, x) :: l)
  = if encodable k
    then match first_refused x with
         | Some s => Some s
         | None => refused_members l
         end
    else Some k.
Proof. reflexivity. Qed.

(** The text [first_refused] finds has no UTF-8 encoding. *)
Lemma first_refused_refused v s : first_refused v = Some s -> encodable s = false.
Proof.
  revert s. induction v as [|z|t|items IH] using pyval_ind; intros s Hs; try done.
  - cbn [first_refused] in Hs. destruct (encodable t) eqn:Ht; [done|].
    apply (inj Some) in Hs. by subst.
  - change (first_refused (PDict items)) with (refused_members items) in Hs.
    induction items as [|[k x] l IHl]; [done|].
    apply Forall_cons in IH as [Hx IH]. cbn [snd] in Hx.
    rewrite refused_members_cons in Hs.
    destruct (encodable k) eqn:Hk; [|apply (inj Some) in Hs; by subst].
    destruct (first_refused x) as [s'|]; [|by apply IHl].
    apply (inj Some) in Hs. subst. by apply Hx.
Qed.

(** A value the writer refuses has a text without a UTF-8 encoding, the
    first of which the error of [dumps] names. *)
Lemma first_refused_json_value v :
  json_value v = None -> exists s, first_refused v = Some s /\ encodable s = false.
Proof.
  intros Hv.
  assert (exists s, first_refused v = Some s) as [s Hs];
    [|exists s; split; [done | by eapply first_refused_refused]].
  induction v as [|z|t|items IH] using pyval_ind; try done.
  - unfold json_value, json_string in Hv. cbn [first_refused].
    destruct (encodable t); [done | by eexists].
  - rewrite json_value_dict in Hv.
    assert (json_members items = None) as Hms by (by destruct (json_members items)).
    change (first_refused (PDict items)) with (refused_members items).
    clear Hv. induction items as [|[k x] l IHl]; [done|].
    apply Forall_cons in IH as [Hx IH]. cbn [snd] in Hx.
    rewrite json_members_cons in Hms. unfold json_string at 1 in Hms.
    rewrite refused_members_cons.
    destruct (encodable k); [|by eexists].
    destruct (first_refused x) as [s'|]; [by eexists|].
    destruct (json_value x) as [b|]; [|by destruct (Hx eq_refl)].
    destruct (json_members l) as [c|]; [done|]. by apply IHl.
Qed.

(** An object is written between braces. *)
Lemma json_value_braces items j :
  json_value (PDict items) = Some j -> exists body, j = lit "{" ++ body ++ lit "}".
Proof.
  rewrite json_value_dict. destruct (json_members items) as [ms|]; [|done].
  some_eq. by eexists.
Qed.

(** ** JSON texts

    The grammar of JSON (RFC 8259) for the values the writer meets: [null],
    integers, strings and objects, without insignificant white space. *)

(** The characters between the quotes of a string: unescaped characters
    (anything from the blank on but the quote and the backslash), two-character
    escapes, and [\u] with four hexadecimal digits. *)
Inductive json_chars : str -> Prop :=
| json_chars_nil : json_chars []
| json_chars_unescaped c s :
    32 <= c -> c ≠ 34 -> c ≠ 92 -> json_chars s -> json_chars (c :: s)
| json_chars_escape e s :
    e ∈ [34; 92; 47; 98; 102; 110; 114; 116] -> json_chars s ->
    json_chars (92 :: e :: s)
| json_chars_unicode h1 h2 h3 h4 s :
    Forall (fun h => is_Some (hex_val h)) [h1; h2; h3; h4] -> json_chars s ->
    json_chars (92 :: 117 :: h1 :: h2 :: h3 :: h4 :: s).

(** An integer without sign: [0], or digits that do not start with [0]. *)
Definition json_digits (s : str) : Prop :=
  s = [48]
  \/ exists d ds, s = d :: ds /\ 49 <= d <= 57 /\ Forall (fun c => 48 <= c <= 57) ds.

Inductive JSON : str -> Prop :=
| JSON_null : JSON (lit "null")
| JSON_int s : json_digits s -> JSON s
| JSON_negative s : json_digits s -> JSON (45 :: s)
| JSON_string s : json_chars s -> JSON ([34] ++ s ++ [34])
| JSON_object (members : list (str * str)) :
    Forall (fun kv => json_chars kv.1) members ->
    Forall (fun kv => JSON kv.2) members ->
    JSON (lit "{"
            ++ join (lit ",") (map (fun kv => ([34] ++ kv.1 ++ [34]) ++ lit ":" ++ kv.2) members)
            ++ lit "}").

Lemma json_chars_app s t : json_chars s -> json_chars t -> json_chars (s ++ t).
Proof.
  intros Hs Ht. induction Hs; simpl; [done | | |]; by constructor.
Qed.

Lemma hex_val_HEX_char d : d < 16 -> is_Some (hex_val (HEX_char d)).
Proof.
  intros Hd.
  assert (Forall (fun d => is_Some (hex_val (HEX_char d)))
            [0; 1; 2; 3; 4; 5; 6; 7; 8; 9; 10; 11; 12; 13; 14; 15]) as Hall.
  { repeat (apply List.Forall_cons; [by eexists|]). apply List.Forall_nil. }
  rewrite Forall_forall in Hall. apply Hall.
  assert (exists i, d = N.of_nat i /\ (i < 16)%nat) as (i & -> & Hi)
    by (exists (N.to_nat d); lia).
  do 16 (destruct i as [|i]; [set_solver|]). lia.
Qed.

Lemma json_chars_u_escape c : json_chars (u_escape c).
Proof.
  unfold u_escape. change (lit "\u") with [92; 117]. simpl.
  apply json_chars_unicode; [|constructor].
  repeat (apply List.Forall_cons; [apply hex_val_HEX_char, N.mod_lt; lia|]).
  apply List.Forall_nil.
Qed.

Lemma json_chars_json_char c : json_chars (json_char c).
Proof.
  unfold json_char.
  destruct (0x80 <=? c).
  { destruct ((c <=? 0xD7FF) || ((0xE000 <=? c) && (c <=? 0xFFFF))).
    - apply json_chars_u_escape.
    - apply json_chars_app; apply json_chars_u_escape. }
  destruct (N.eqb_spec c 34) as [->|H34].
  { apply (json_chars_escape 34); [set_solver | constructor]. }
  destruct (N.eqb_spec c 92) as [->|H92].
  { apply (json_chars_escape 92); [set_solver | constructor]. }
  destruct (c =? 8); [apply (json_chars_escape 98); [set_solver | constructor]|].
  destruct (c =? 9); [apply (json_chars_escape 116); [set_solver | constructor]|].
  destruct (c =? 10); [apply (json_chars_escape 110); [set_solver | constructor]|].
  destruct (c =? 12); [apply (json_chars_escape 102); [set_solver | constructor]|].
  destruct (c =? 13); [apply (json_chars_escape 114); [set_solver | constructor]|].
  destruct (N.ltb_spec c 32) as [Hctl|Hprint].
  - change (lit "\u00") with [92; 117; 48; 48]. simpl.
    apply json_chars_unicode; [|constructor].
    apply List.Forall_cons; [by eexists|]. apply List.Forall_cons; [by eexists|].
    apply List.Forall_cons.
    { apply hex_val_HEX_char. rewrite N.shiftr_div_pow2.
      apply N.Div0.div_lt_upper_bound. simpl. lia. }
    apply List.Forall_cons; [|apply List.Forall_nil].
    apply hex_val_HEX_char.
    replace (N.land c 15) with (c mod 2 ^ 4) by (symmetry; apply (N.land_ones c 4)).
    by apply N.mod_lt.
  - by apply json_chars_unescaped; [| | |constructor].
Qed.

Lemma json_chars_concat (ls : list str) : Forall json_chars ls -> json_chars (concat ls).
Proof.
  induction 1 as [|l ls Hl _ IH]; simpl; [constructor|]. by apply json_chars_app.
Qed.

Lemma json_string_chars s j :
  json_string s = Some j -> exists body, j = [34] ++ body ++ [34] /\ json_chars body.
Proof.
  unfold json_string. destruct (encodable s); [|done]. some_eq.
  eexists. split; [done|].
  apply json_chars_concat, Forall_map, Forall_forall. intros c _. apply json_chars_json_char.
Qed.

(** A numeral of a number other than zero does not start with the digit
    zero. *)
Lemma digits_aux_leading fuel base n :
  2 <= base -> n ≠ 0 -> n < 2 ^ N.of_nat fuel ->
  exists d ds, digits_aux (S fuel) base n [] = d :: ds /\ d ≠ 0.
Proof.
  intros Hb. revert n. induction fuel as [|fuel IH]; intros n Hn Hlt.
  - simpl in Hlt. lia.
  - change (digits_aux (S (S fuel)) base n [])
      with (if n / base =? 0 then [n mod base]
            else digits_aux (S fuel) base (n / base) [n mod base]).
    destruct (N.eqb_spec (n / base) 0) as [Hq|Hq].
    + exists (n mod base), []. split; [done|].
      apply N.div_small_iff in Hq; [|lia]. rewrite N.mod_small; done.
    + rewrite digits_aux_app.
      destruct (IH (n / base)) as (d & ds & -> & Hd); [done| |by eexists _, _].
      assert (n / base <= n / 2) by (apply N.div_le_compat_l; lia).
      assert (n / 2 < 2 ^ N.of_nat fuel); [|lia].
      apply N.Div0.div_lt_upper_bound.
      rewrite Nat2N.inj_succ, N.pow_succ_r' in Hlt. done.
Qed.

Lemma json_digits_decimal n : json_digits (map dec_char (digits 10 n)).
Proof.
  destruct (N.eq_dec n 0) as [->|Hn]; [by left | right].
  destruct (digits_aux_leading (N.to_nat (N.size n)) 10 n) as (d & ds & Hds & Hd);
    [lia | done | apply size_fuel |].
  pose proof (digits_bound 10 n ltac:(done)) as Hbound.
  unfold digits in *. rewrite Hds in *.
  apply Forall_cons in Hbound as [Hd10 Hbound]. cbv beta in Hd10.
  exists (dec_char d), (map dec_char ds). split; [done|].
  split; [unfold dec_char; lia|].
  apply Forall_map. eapply Forall_impl; [exact Hbound|].
  intros c Hc. cbv beta in Hc. unfold dec_char. lia.
Qed.

(** What the writer writes is a JSON text. *)
Lemma JSON_json_value v j : json_value v = Some j -> JSON j.
Proof.
  revert j. induction v as [|z|s|items IH] using pyval_ind; intros j.
  - some_eq. constructor.
  - some_eq. unfold str_of_int.
    destruct (z <? 0)%Z.
    + change (lit "-") with [45]. apply JSON_negative, json_digits_decimal.
    + apply JSON_int, json_digits_decimal.
  - intros Hs. apply json_string_chars in Hs as (body & -> & Hbody). by constructor.
  - rewrite json_value_dict.
    assert (forall ms, json_members items = Some ms ->
              exists members,
                ms = map (fun kv => ([34] ++ kv.1 ++ [34]) ++ lit ":" ++ kv.2) members
                /\ Forall (fun kv => json_chars kv.1) members
                /\ Forall (fun kv => JSON kv.2) members) as Hms.
    { induction IH as [|[k x] l Hx _ IHl]; intros ms.
      - some_eq. by exists [].
      - rewrite json_members_cons.
        destruct (json_string k) as [a|] eqn:Ha; [|done].
        destruct (json_value x) as [b|] eqn:Hb; [|done].
        destruct (json_members l) as [c|] eqn:Hc; [|done].
        some_eq. destruct (IHl c eq_refl) as (members & -> & Hkeys & Hvals).
        apply json_string_chars in Ha as (body & -> & Hbody).
        exists ((body, b) :: members). split; [done|].
        split; constructor; try done. by apply Hx. }
    destruct (json_members items) as [ms|]; [|done].
    some_eq. destruct (Hms ms eq_refl) as (members & -> & Hkeys & Hvals).
    by constructor.
Qed.

(** ** Calls that return

    [returns m Q]: from every process state, [m] returns a value that
    satisfies [Q], raises nothing, and changes nothing but the oracle. *)

Definition returns {A} (m : M A) (Q : A -> Prop) : Prop :=
  forall p, exists a o, m p = (Ok a, with_oracle o p) /\ Q a.

Lemma with_oracle_id p : with_oracle (oracle p) p = p.
Proof. by destruct p. Qed.

Lemma returns_ret {A} (a : A) (Q : A -> Prop) : Q a -> returns (ret a) Q.
Proof.
  intros Ha p. exists a, (oracle p). by rewrite with_oracle_id.
Qed.

Lemma returns_bind {A B} (m : M A) (k : A -> M B) (P : A -> Prop) (Q : B -> Prop) :
  returns m P -> (forall a, P a -> returns (k a) Q) -> returns (bind m k) Q.
Proof.
  intros Hm Hk p. destruct (Hm p) as (a & o & Ha & HP).
  destruct (Hk a HP (with_oracle o p)) as (b & o' & Hb & HQ).
  exists b, o'. unfold bind. rewrite Ha, Hb. done.
Qed.

Lemma returns_weaken {A} (m : M A) (P Q : A -> Prop) :
  returns m P -> (forall a, P a -> Q a) -> returns m Q.
Proof.
  intros Hm HPQ p. destruct (Hm p) as (a & o & Ha & HP). exists a, o. auto.
Qed.

Lemma returns_sample {A} (g : Gen A) : returns (sample g) (fun a => exists o, a = (g o).1).
Proof.
  intros p. unfold sample. destruct (g (oracle p)) as [a o] eqn:Hg.
  exists a, o. split; [done|]. exists (oracle p). by rewrite Hg.
Qed.

Lemma returns_getrandbits k : returns (sample (getrandbits k)) (fun x => x < 2 ^ k).
Proof.
  eapply returns_weaken; [apply returns_sample|].
  intros x [o ->]. unfold getrandbits. destruct (draw o) as [y o'].
  apply N.mod_lt, N.pow_nonzero. done.
Qed.

(** Every number below [2^k] is an outcome of [getrandbits(k)]. *)
Lemma getrandbits_any k v : v < 2 ^ k -> exists o, (getrandbits k o).1 = v.
Proof.
  intros Hv. exists {| tape := fun _ => v; pos := 0 |}.
  unfold getrandbits, draw. simpl. by apply N.mod_small.
Qed.

Lemma returns_randbelow n : n ≠ 0 -> returns (sample (randbelow n)) (fun x => x < n).
Proof.
  intros Hn. eapply returns_weaken; [apply returns_sample|].
  intros x [o ->]. unfold randbelow. destruct (draw o) as [y o'].
  by apply N.mod_lt.
Qed.

Lemma returns_randrange start stop :
  (start < stop)%Z -> returns (randrange start stop) (fun z => (start <= z < stop)%Z).
Proof.
  intros Hlt. unfold randrange.
  destruct (Z.ltb_spec 0 (stop - start)) as [_|]; [|lia].
  eapply returns_bind; [apply (returns_randbelow (Z.to_N (stop - start))); lia|].
  intros r Hr. cbv beta in Hr. apply returns_ret. lia.
Qed.

Lemma returns_random_int min max :
  (min <= max)%Z -> returns (fake.random_int min max) (fun z => (min <= z <= max)%Z).
Proof.
  intros Hle. eapply returns_weaken; [apply returns_randrange; lia|].
  intros z Hz. cbv beta in Hz. lia.
Qed.

Lemma returns_random_element {A} (elements : list A) :
  elements ≠ [] -> returns (fake.random_element elements) (fun x => x ∈ elements).
Proof.
  intros Hne. unfold fake.random_element.
  eapply returns_bind.
  - apply (returns_randbelow (N.of_nat (length elements))).
    destruct elements; [done | simpl; lia].
  - intros i Hi. cbv beta in Hi.
    destruct (elements !! N.to_nat i) as [x|] eqn:Hx.
    + apply returns_ret. by eapply list_elem_of_lookup_2.
    + apply lookup_ge_None in Hx. lia.
Qed.

Lemma returns_none_or value :
  returns (fake.none_or value) (fun v => v = PNone \/ v = value).
Proof.
  unfold fake.none_or. eapply returns_bind; [apply returns_sample|].
  intros coin _. apply returns_ret. destruct (N.even coin); auto.
Qed.

Lemma returns_date_new_2023_6_1 :
  returns (date_new 2023 6 1) (fun d => d = {| year := 2023; month := 6; day := 1 |}).
Proof. by apply returns_ret. Qed.

(** ** The record generator *)

Section Generator.
Context {U : Unicode} {I : Interpreter} {F : fake.Provider} {C : Clock}.

Import data_generator.

(** A value of a nullable field: [None], or a value that satisfies [P]. *)
Definition optional (P : pyval -> Prop) (v : pyval) : Prop := v = PNone \/ P v.

Definition is_text (v : pyval) : Prop :=
  exists s, v = PStr s /\ encodable s = true.

(** An address: its state is one the provider draws, and its postal code is
    one the provider draws for that very state. *)
Definition is_address (v : pyval) : Prop :=
  exists street city st pc,
    v = PDict [(lit "street_address", PStr street); (lit "city", PStr city);
               (lit "state", PStr st); (lit "postalcode", PStr pc)]
    /\ encodable street = true /\ encodable city = true
    /\ (exists o, st = (fake.state_abbr o).1)
    /\ (exists o, pc = (fake.postalcode_in_state st o).1).

Definition is_contact (v : pyval) : Prop :=
  exists contact_name contact_phone,
    v = PDict [(lit "name", PStr contact_name); (lit "phone", PStr contact_phone)]
    /\ encodable contact_name = true /\ encodable contact_phone = true.

(** What [client_support] can be. *)
Inductive generated : pyval -> Prop :=
| generated_intro txid rfid item purchase_time days name address phone email emergency_contact :
    rfid < 2 ^ 96 ->
    item ∈ inventory ->
    (1 <= days <= 7)%Z ->
    encodable name = true ->
    optional is_address address ->
    optional is_text phone ->
    optional is_text email ->
    optional is_contact emergency_contact ->
    generated
      (PDict [(lit "txid", PStr (uuid_str txid));
              (lit "rfid", PStr (hex (Z.of_N rfid)));
              (lit "item", PStr item);
              (lit "purchase_time", PStr (datetime_isoformat purchase_time));
              (lit "expiration_time",
                PStr (date_isoformat {| year := 2023; month := 6; day := 1 |}));
              (lit "days", PInt days);
              (lit "name", PStr name);
              (lit "address", address);
              (lit "phone", phone);
              (lit "email", email);
              (lit "emergency_contact", emergency_contact)]).

(** [client_support] always returns, and what it returns is [generated]. *)
Lemma returns_client_support : returns client_support generated.
Proof.
  unfold client_support.
  eapply returns_bind; [apply returns_sample|]. intros state Hstate.
  eapply returns_bind; [apply returns_sample|]. intros txid _.
  eapply returns_bind; [apply returns_getrandbits|]. intros rfid Hrfid.
  eapply returns_bind; [by apply returns_random_element|]. intros item Hitem.
  eapply returns_bind; [apply returns_sample|]. intros purchase_time _.
  eapply returns_bind; [apply returns_date_new_2023_6_1|]. intros expiration_time ->.
  eapply returns_bind; [by apply returns_random_int|]. intros days Hdays.
  eapply returns_bind; [apply returns_sample|]. intros name [? ->].
  eapply returns_bind; [apply returns_sample|]. intros street [? ->].
  eapply returns_bind; [apply returns_sample|]. intros city [? ->].
  eapply returns_bind; [apply returns_sample|]. intros postalcode Hpostalcode.
  eapply returns_bind; [apply returns_none_or|]. intros address Haddress.
  eapply returns_bind; [apply returns_sample|]. intros phone_number [? ->].
  eapply returns_bind; [apply returns_none_or|]. intros phone Hphone.
  eapply returns_bind; [apply returns_sample|]. intros email_address [? ->].
  eapply returns_bind; [apply returns_none_or|]. intros email Hemail.
  eapply returns_bind; [apply returns_sample|]. intros contact_name [? ->].
  eapply returns_bind; [apply returns_sample|]. intros contact_phone [? ->].
  eapply returns_bind; [apply returns_none_or|]. intros emergency_contact Hcontact.
  apply returns_ret. constructor; try done.
  - apply fake.name_text.
  - destruct Haddress as [->| ->]; [by left | right].
    eexists _, _, _, _. split; [done|].
    split; [apply fake.street_address_text|]. split; [apply fake.city_text|]. done.
  - destruct Hphone as [->| ->]; [by left | right].
    eexists. split; [done|]. apply fake.phone_number_text.
  - destruct Hemail as [->| ->]; [by left | right].
    eexists. split; [done|]. apply fake.email_text.
  - destruct Hcontact as [->| ->]; [by left | right].
    eexists _, _. split; [done|].
    split; [apply fake.name_text | apply fake.phone_number_text].
Qed.

Lemma plain_uuid_str x : Forall plain (uuid_str x).
Proof.
  unfold uuid_str, slice.
  pose proof (plain_fmt_0x 32 x) as Hh.
  repeat (apply Forall_app; split);
    try plain_lit; try apply Forall_take; try apply Forall_drop; done.
Qed.

Lemma plain_date_isoformat d : Forall plain (date_isoformat d).
Proof.
  unfold date_isoformat.
  repeat (apply Forall_app; split); try plain_lit; apply plain_fmt_0d.
Qed.

Lemma plain_datetime_isoformat t : Forall plain (datetime_isoformat t).
Proof.
  unfold datetime_isoformat.
  repeat (apply Forall_app; split);
    try plain_lit; try apply plain_fmt_0d; try apply plain_date_isoformat.
  destruct (microsecond t =? 0)%Z; [constructor|].
  apply Forall_app; split; [plain_lit | apply plain_fmt_0d].
Qed.

Lemma inventory_text item : item ∈ inventory -> encodable item = true.
Proof.
  intros Hin. apply list_elem_of_In in Hin. revert item Hin.
  apply forallb_forall. reflexivity.
Qed.

Lemma text_ok_optional (P : pyval -> Prop) v :
  (forall x, P x -> text_ok x) -> optional P v -> text_ok v.
Proof. intros HP [->|Hv]; [constructor | by apply HP]. Qed.

(** Proving a literal dictionary to be proper text, entry by entry. *)
Ltac text_ok_dict :=
  apply text_ok_dict;
  [ repeat (apply List.Forall_cons; [reflexivity|]); apply List.Forall_nil
  | repeat (apply List.Forall_cons; [cbn [snd]|]); [..|apply List.Forall_nil] ].

Lemma text_ok_is_text v : is_text v -> text_ok v.
Proof. intros (s & -> & Hs). by constructor. Qed.

Lemma text_ok_is_address v : is_address v -> text_ok v.
Proof.
  intros (street & city & st & pc & -> & Hstreet & Hcity & [o ->] & [o' ->]).
  text_ok_dict; constructor; try done.
  - apply fake.state_abbr_text.
  - apply fake.postalcode_text.
Qed.

Lemma text_ok_is_contact v : is_contact v -> text_ok v.
Proof.
  intros (contact_name & contact_phone & -> & Hn & Hp).
  text_ok_dict; by constructor.
Qed.

(** The writer accepts every generated record. *)
Lemma text_ok_generated r : generated r -> text_ok r.
Proof.
  intros [txid rfid item purchase_time days name address phone email emergency_contact
            Hrfid Hitem Hdays Hname Haddress Hphone Hemail Hcontact].
  text_ok_dict.
  - constructor. apply plain_encodable, plain_uuid_str.
  - constructor. apply plain_encodable, plain_hex.
  - constructor. by apply inventory_text.
  - constructor. apply plain_encodable, plain_datetime_isoformat.
  - constructor. apply plain_encodable, plain_date_isoformat.
  - constructor.
  - by constructor.
  - eapply text_ok_optional; [apply text_ok_is_address | done].
  - eapply text_ok_optional; [apply text_ok_is_text | done].
  - eapply text_ok_optional; [apply text_ok_is_text | done].
  - eapply text_ok_optional; [apply text_ok_is_contact | done].
Qed.


(** [emits p r]: called in the state [p], [print_client_support] builds the
    record [r] and returns after appending the JSON text of [r] and a
    newline to standard output. *)
Definition emits (p : Proc) (r : pyval) : Prop :=
  exists j o,
    client_support p = (Ok r, with_oracle o p)
    /\ json_value r = Some j
    /\ print_client_support p
       = (Ok tt, with_stdout (stdout p ++ j ++ [NL]) (with_oracle o p)).

(** Every call of [print_client_support] emits a record, a generated one. *)
Lemma print_client_support_emits p : exists r, generated r /\ emits p r.
Proof.
  destruct (returns_client_support p) as (r & o & Hr & Hgen).
  destruct (json_value_text_ok r (text_ok_generated r Hgen)) as [j Hj].
  exists r. split; [done|]. exists j, o. split; [done|]. split; [done|].
  unfold print_client_support, bind, dumps. rewrite Hr, Hj.
  unfold ret. cbv zeta. rewrite stdout_write_writable; [done|].
  rewrite stdout_writable_app.
  by rewrite (stdout_writable_plain j) by (by eapply plain_json_value).
Qed.

(** The record a call emits is determined by the state it is called in. *)
Lemma emits_functional p r r' : emits p r -> emits p r' -> r = r'.
Proof.
  intros (j & o & Hr & _) (j' & o' & Hr' & _). congruence.
Qed.

(** A line of the output that carries a record: the JSON text of a
    generated record that a call of [print_client_support] emitted. *)
Definition record_line (j : str) : Prop :=
  exists p r, emits p r /\ generated r /\ json_value r = Some j.

(** The loop of the driver: [n] calls append [n] record lines. *)
Lemma for_range_print_client_support n p :
  exists js o,
    length js = n /\ Forall record_line js
    /\ for_range n print_client_support p
       = (Ok tt, with_stdout (stdout p ++ concat (map (fun j => j ++ [NL]) js))
                   (with_oracle o p)).
Proof.
  revert p. induction n as [|n IH]; intros p.
  - exists [], (oracle p). split; [done|]. split; [constructor|].
    simpl. rewrite app_nil_r. unfold ret. by destruct p.
  - destruct (print_client_support_emits p) as (r & Hgen & Hemit).
    pose proof Hemit as (j & o & _ & Hj & Hp).
    destruct (IH (with_stdout (stdout p ++ j ++ [NL]) (with_oracle o p)))
      as (js & o' & Hlen & Hjs & Hloop).
    exists (j :: js), o'. split; [simpl; lia|]. split.
    { constructor; [by exists p, r | done]. }
    simpl. unfold bind. rewrite Hp, Hloop. simpl.
    rewrite <- !app_assoc. done.
Qed.

End Generator.

(** ** Lines of the output *)

(** [lines s]: the pieces of [s] that a newline ends, in order, and what
    follows the last newline. *)
Fixpoint lines (s : str) : list str * str :=
  match s with
  | [] => ([], [])
  | c :: s' =>
      let (ls, rest) := lines s' in
      if c =? NL then ([] :: ls, rest)
      else match ls with
           | [] => ([], c :: rest)
           | l :: ls' => ((c :: l) :: ls', rest)
           end
  end.

Example lines_sample : lines (lit "ab" ++ [NL] ++ [NL] ++ lit "c") = ([lit "ab"; []], lit "c").
Proof. reflexivity. Qed.

Lemma lines_line l s : NL ∉ l -> lines (l ++ NL :: s) = (l :: (lines s).1, (lines s).2).
Proof.
  induction l as [|c l IH]; intros Hl.
  - simpl. by destruct (lines s).
  - apply not_elem_of_cons in Hl as [Hc Hl].
    change ((c :: l) ++ NL :: s) with (c :: (l ++ NL :: s)).
    cbn [lines]. rewrite (IH Hl).
    destruct (N.eqb_spec c NL) as [->|_]; done.
Qed.

Lemma lines_record_lines (js : list str) s :
  Forall (fun j => NL ∉ j) js ->
  lines (concat (map (fun j => j ++ [NL]) js) ++ s) = (js ++ (lines s).1, (lines s).2).
Proof.
  induction 1 as [|j js Hj _ IH]; simpl.
  - by destruct (lines s).
  - rewrite <- !app_assoc. simpl. rewrite (lines_line j _ Hj), IH. done.
Qed.

(** ** A sample installation

    A small provider, clock and oracle on which the scripts can be run: three
    states with their postal-code ranges, and short word lists.  The postal
    code of a state is drawn the way the library does it: a number of the
    state's range, printed in decimal and padded to five digits. *)

Module Sample.

Definition states_postcode : list (str * (Z * Z)) :=
  [(lit "AL", (35004, 36925)); (lit "CT", (6001, 6389)); (lit "WY", (82001, 83128))]%Z.

Fixpoint assoc {A} (key : str) (l : list (str * A)) : option A :=
  match l with
  | [] => None
  | (k, v) :: l' => if decide (k = key) then Some v else assoc key l'
  end.

Definition pick (xs : list str) : Gen str :=
  fun o => let (i, o') := randbelow (N.of_nat (length xs)) o in (nth (N.to_nat i) xs [], o').

Definition state_abbr : Gen str := pick (map fst states_postcode).

Definition postalcode_in_state (st : str) : Gen str :=
  fun o =>
    match assoc st states_postcode with
    | Some (lo, hi) =>
        let (r, o') := randbelow (Z.to_N (hi + 1 - lo)) o in
        (zfill 5 (str_of_int (lo + Z.of_N r)), o')
    | None => (lit "00000", o)
    end.

Definition in_state (st pc : str) : Prop :=
  exists lo hi n,
    assoc st states_postcode = Some (lo, hi) /\ (lo <= n <= hi)%Z
    /\ pc = zfill 5 (str_of_int n).

Definition names : list str := [lit "Ada Pike"; lit "Jo O'Neil"; lit "Lee Marsh"].
Definition streets : list str := [lit "12 Elm Street"; lit "7 Mill Road Apt. 3"].
Definition cities : list str := [lit "Lake Anna"; lit "Port Henry"].
Definition phones : list str := [lit "555-0100"; lit "(555)010-0199x12"].
Definition emails : list str := [lit "ada@example.org"; lit "lee@example.com"].

Lemma pick_text xs o : forallb encodable xs = true -> encodable (pick xs o).1 = true.
Proof.
  intros Hxs. unfold pick. destruct (randbelow _ o) as [i o']. simpl.
  destruct (Nat.lt_ge_cases (N.to_nat i) (length xs)) as [Hlt|Hge].
  - rewrite forallb_forall in Hxs. by apply Hxs, nth_In.
  - by rewrite nth_overflow.
Qed.

Lemma pick_elem xs o : xs ≠ [] -> (pick xs o).1 ∈ xs.
Proof.
  intros Hne. unfold pick, randbelow. destruct (draw o) as [x o']. simpl.
  apply list_elem_of_In, nth_In.
  assert (x mod N.of_nat (length xs) < N.of_nat (length xs)); [|lia].
  apply N.mod_lt. destruct xs; [done | simpl; lia].
Qed.

Lemma postalcode_in_state_text st o : encodable (postalcode_in_state st o).1 = true.
Proof.
  unfold postalcode_in_state. destruct (assoc st states_postcode) as [[lo hi]|]; [|done].
  destruct (randbelow _ o) as [r o']. simpl.
  apply plain_encodable, plain_zfill, plain_str_of_int.
Qed.

Lemma randint_range (lo hi : Z) (x : N) :
  (lo <= hi)%Z -> (lo <= lo + Z.of_N (x mod Z.to_N (hi + 1 - lo)) <= hi)%Z.
Proof.
  intros Hle.
  assert (Z.of_N (Z.to_N (hi + 1 - lo)) = hi + 1 - lo)%Z as Hw by (apply Z2N.id; lia).
  assert (x mod Z.to_N (hi + 1 - lo) < Z.to_N (hi + 1 - lo)) as Hlt by (apply N.mod_lt; lia).
  apply N2Z.inj_lt in Hlt. rewrite Hw in Hlt.
  pose proof (N2Z.is_nonneg (x mod Z.to_N (hi + 1 - lo))).
  lia.
Qed.

Lemma postalcode_in_state_valid o o' :
  in_state (state_abbr o).1 (postalcode_in_state (state_abbr o).1 o').1.
Proof.
  assert ((state_abbr o).1 ∈ map fst states_postcode) as Hst by (by apply pick_elem).
  destruct (state_abbr o) as [st o1]. simpl in *.
  unfold postalcode_in_state, randbelow. destruct (draw o') as [x o2].
  unfold states_postcode in Hst. simpl in Hst.
  repeat (apply elem_of_cons in Hst as [->|Hst]); [..|by apply elem_of_nil in Hst].
  - exists 35004%Z, 36925%Z, (35004 + Z.of_N (x mod Z.to_N (36925 + 1 - 35004)))%Z.
    split; [done|]. split; [by apply randint_range | done].
  - exists 6001%Z, 6389%Z, (6001 + Z.of_N (x mod Z.to_N (6389 + 1 - 6001)))%Z.
    split; [done|]. split; [by apply randint_range | done].
  - exists 82001%Z, 83128%Z, (82001 + Z.of_N (x mod Z.to_N (83128 + 1 - 82001)))%Z.
    split; [done|]. split; [by apply randint_range | done].
Qed.

#[export] Instance provider : fake.Provider := {|
  fake.state_abbr := state_abbr;
  fake.name := pick names;
  fake.street_address := pick streets;
  fake.city := pick cities;
  fake.postalcode_in_state := postalcode_in_state;
  fake.phone_number := pick phones;
  fake.email := pick emails;
  fake.in_state := in_state;
  fake.postalcode_in_state_valid := postalcode_in_state_valid;
  fake.state_abbr_text := fun o => pick_text (map fst states_postcode) o eq_refl;
  fake.name_text := fun o => pick_text names o eq_refl;
  fake.street_address_text := fun o => pick_text streets o eq_refl;
  fake.city_text := fun o => pick_text cities o eq_refl;
  fake.postalcode_text := postalcode_in_state_text;
  fake.phone_number_text := fun o => pick_text phones o eq_refl;
  fake.email_text := fun o => pick_text emails o eq_refl
|}.

(** A clock that reads the time of day off the oracle. *)
#[export] Instance clock : Clock := {|
  utcnow := fun o =>
    let (t, o') := draw o in
    ({| on := {| year := 2023; month := 5; day := 17 |};
        hour := Z.of_N (t mod 24); minute := Z.of_N (t mod 60);
        second := Z.of_N (t / 60 mod 60); microsecond := Z.of_N (t mod 1000000) |}, o')
|}.

Definition oracle (seed : N) : Oracle :=
  {| tape := fun i => (seed + N.of_nat i) * 2654435761 / 4096; pos := 0 |}.

End Sample.


(** ** The driver of the generator *)

Section Driver.
Context {U : Unicode} {I : Interpreter} {F : fake.Provider} {C : Clock}.

Import data_generator.

(** A JSON object on one line: a JSON text between braces (so not blank)
    without a line break. *)
Definition json_line (j : str) : Prop :=
  JSON j /\ (exists body, j = lit "{" ++ body ++ lit "}") /\ NL ∉ j.

Lemma record_line_json_line j : record_line j -> json_line j.
Proof.
  intros (p & r & _ & Hgen & Hj). split; [|split].
  - by eapply JSON_json_value.
  - destruct Hgen. by eapply json_value_braces.
  - by eapply plain_not_NL, plain_json_value.
Qed.

(** With a count argument that [int] reads as [n], the script runs to its
    end: it writes [range_len n] record lines and then an empty line. *)
Lemma script_runs prog arg n env file o :
  int_literal arg = Some n ->
  exists js o',
    length js = range_len n /\ Forall record_line js
    /\ script [prog; arg] (start env file o)
       = (Ok tt, with_stdout (concat (map (fun j => j ++ [NL]) js) ++ [NL])
                   (with_oracle o' (with_environ (env ∪ file) (start env file o)))).
Proof.
  intros Harg.
  destruct (for_range_print_client_support (range_len n)
              (with_environ (env ∪ file) (start env file o)))
    as (js & o' & Hlen & Hjs & Hloop).
  exists js, o'. split; [done|]. split; [done|].
  unfold script, main, load_dotenv, index, int. cbn [skipn lookup list_lookup].
  unfold bind, ret. cbv beta iota. rewrite Harg. cbv beta iota.
  change (with_environ (environ (start env file o) ∪ dotenv_file (start env file o))
            (start env file o))
    with (with_environ (env ∪ file) (start env file o)).
  rewrite Hloop, print_empty. done.
Qed.

(** With a count argument that [int] does not read, the script stops at
    [int]: nothing has been written. *)
Lemma script_stops_at_int prog arg env file o :
  int_literal arg = None ->
  script [prog; arg] (start env file o)
  = (Raise (ValueError (int_error arg)), with_environ (env ∪ file) (start env file o)).
Proof.
  intros Harg.
  unfold script, main, load_dotenv, index, int. cbn [skipn lookup list_lookup].
  unfold bind, ret. cbv beta iota. by rewrite Harg.
Qed.

Lemma run_script_stops_at_int prog arg env file o :
  int_literal arg = None ->
  status (run_script (script [prog; arg]) (start env file o)) = 1%Z
  /\ out (run_script (script [prog; arg]) (start env file o)) = []
  /\ err (run_script (script [prog; arg]) (start env file o))
     = lit "ValueError: " ++ int_error arg ++ [NL].
Proof.
  intros Harg. unfold run_script. by rewrite (script_stops_at_int prog arg env file o Harg).
Qed.

End Driver.

(** ** The key preview *)

Section KeyPreview.
Context {U : Unicode} {I : Interpreter}.

(** The environment after [load_dotenv()]: a variable of the process keeps
    its value, and a variable the process does not have takes the value the
    .env file gives it, if any. *)
Lemma environ_load_dotenv p key :
  environ (load_dotenv p).2 !! key
  = match environ p !! key with
    | Some v => Some v
    | None => dotenv_file p !! key
    end.
Proof.
  simpl. destruct (environ p !! key) as [v|] eqn:Henv.
  - by apply lookup_union_Some_l.
  - by apply lookup_union_r.
Qed.




(** [print("First 60 chars:", text)] writes the label and a space; then, if
    the output takes the text, the text and a newline; if it does not, the
    call ends there with the error of the text. *)
Lemma print_preview text p :
  print [lit "First 60 chars:"; text] p
  = if stdout_writable text
    then (Ok tt, with_stdout (stdout p ++ lit "First 60 chars: " ++ text ++ [NL]) p)
    else (Raise (UnicodeEncodeError (stdout_error text)),
          with_stdout (stdout p ++ lit "First 60 chars: ") p).
Proof.
  unfold print, bind. cbn [print_args]. unfold bind.
  rewrite (stdout_write_writable (lit "First 60 chars:")) by reflexivity.
  rewrite (stdout_write_writable (lit " ")) by reflexivity.
  unfold stdout_write at 1. cbn [stdout with_stdout].
  destruct (stdout_writable text).
  - rewrite stdout_write_writable by reflexivity.
    destruct p. unfold with_stdout. cbn [stdout environ dotenv_file stderr oracle].
    by rewrite <- !app_assoc.
  - destruct p. unfold with_stdout. cbn [stdout environ dotenv_file stderr oracle].
    by rewrite <- !app_assoc.
Qed.

(** What a run of [load_key.py] comes to, by the variable as [os.getenv]
    finds it once [load_dotenv()] has run, and by whether the output takes
    the text of the preview. *)
Lemma load_key_runs env file o :
  run_script load_key.script (start env file o)
  = match (env ∪ file) !! load_key.KEY with
    | None =>
        {| status := 1; out := [];
           err := lit "SNOWFLAKE_PRIVATE_KEY not set" ++ [NL] |}
    | Some pem =>
        let text := repr (slice_to 60 pem) in
        if stdout_writable text
        then {| status := 0; out := lit "First 60 chars: " ++ text ++ [NL]; err := [] |}
        else {| status := 1; out := lit "First 60 chars: ";
                err := lit "UnicodeEncodeError: " ++ stdout_error text ++ [NL] |}
    end.
Proof.
  unfold run_script, load_key.script, bind, load_dotenv, getenv.
  cbv beta iota. cbn [environ dotenv_file start with_environ].
  destruct ((env ∪ file) !! load_key.KEY) as [pem|]; [|done].
  rewrite print_preview. cbv zeta.
  by destruct (stdout_writable (repr (slice_to 60 pem))).
Qed.

End KeyPreview.

(** ** [int] reads back what [str] prints *)

Section IntLiteral.
Context {U : Unicode} {I : Interpreter}.

Lemma dec_char_facts d :
  d < 10 ->
  is_dec (dec_char d) = true /\ ascii_space (dec_char d) = false
  /\ (dec_char d =? 95) = false /\ (dec_char d =? 45) = false
  /\ (dec_char d =? 43) = false /\ dec_char d - 48 = d /\ dec_char d < 127.
Proof.
  intros Hd. unfold is_dec, ascii_space, dec_char.
  repeat split; try lia.
  - apply andb_true_iff. split; apply N.leb_le; lia.
  - apply orb_false_iff. split; [apply N.eqb_neq; lia|].
    apply andb_false_iff. right. apply N.leb_gt. lia.
  - apply N.eqb_neq. lia.
  - apply N.eqb_neq. lia.
  - apply N.eqb_neq. lia.
Qed.

Lemma to_ascii_numeral_ascii s :
  Forall (fun c => c < 127) s -> to_ascii_numeral s = s.
Proof.
  induction 1 as [|c s Hc _ IH]; [done|].
  unfold to_ascii_numeral in *. simpl. rewrite IH.
  by destruct (N.ltb_spec c 127); [|lia].
Qed.

Lemma int_digits_dec_chars ds acc after_digit :
  Forall (fun d => d < 10) ds ->
  ds ≠ [] \/ after_digit = true ->
  int_digits (map dec_char ds) acc after_digit
  = Some (fold_left (fun a d => a * 10 + d) ds acc).
Proof.
  intros Hds. revert acc after_digit.
  induction Hds as [|d ds Hd _ IH]; intros acc after_digit Hne.
  - destruct Hne as [? | ->]; done.
  - destruct (dec_char_facts d Hd) as (Hdec & _ & Hus & _ & _ & Hval & _).
    simpl. rewrite Hus, Hdec, Hval. apply IH. by right.
Qed.

Lemma strip_dec_chars (sign : str) ds :
  Forall (fun d => d < 10) ds -> ds ≠ [] ->
  sign = [] \/ sign = [45] ->
  strip (sign ++ map dec_char ds) = sign ++ map dec_char ds.
Proof.
  intros Hds Hne Hsign.
  assert (lstrip (sign ++ map dec_char ds) = sign ++ map dec_char ds) as Hl.
  { destruct Hsign as [->| ->]; [|done].
    destruct Hds as [|d ds Hd _]; [done|]. simpl.
    destruct (dec_char_facts d Hd) as (_ & -> & _). done. }
  unfold strip. rewrite Hl.
  destruct (exists_last Hne) as (ds' & d & ->).
  apply Forall_app in Hds as [_ Hd]. apply Forall_cons in Hd as [Hd _].
  destruct (dec_char_facts d Hd) as (_ & Hsp & _).
  rewrite map_app, app_assoc. simpl map.
  rewrite (rev_unit (sign ++ map dec_char ds') (dec_char d)).
  simpl lstrip. rewrite Hsp. simpl. by rewrite rev_involutive.
Qed.

Lemma count_digits_dec_chars ds :
  Forall (fun d => d < 10) ds -> count_digits (map dec_char ds) = length ds.
Proof.
  unfold count_digits. induction 1 as [|d ds Hd _ IH]; [done|].
  destruct (dec_char_facts d Hd) as (Hdec & _).
  cbn [map List.filter]. rewrite Hdec. cbn [length]. by rewrite IH.
Qed.

(** The digits [int] counts in the numeral of an integer are the digits of
    its absolute value. *)
Lemma count_digits_str_of_int z :
  count_digits (str_of_int z) = length (digits 10 (Z.abs_N z)).
Proof.
  pose proof (digits_bound 10 (Z.abs_N z) ltac:(done)) as Hds.
  unfold str_of_int. destruct (z <? 0)%Z.
  - change (lit "-") with [45]. unfold count_digits. cbn [app List.filter].
    change (is_dec 45) with false. cbv iota. by apply count_digits_dec_chars.
  - by apply count_digits_dec_chars.
Qed.

Lemma strip_str_of_int z : strip (to_ascii_numeral (str_of_int z)) = str_of_int z.
Proof.
  pose proof (digits_bound 10 (Z.abs_N z) ltac:(done)) as Hds.
  pose proof (digits_nonempty 10 (Z.abs_N z)) as Hne.
  assert (Forall (fun c => c < 127) (map dec_char (digits 10 (Z.abs_N z)))) as Hascii.
  { apply Forall_map. eapply Forall_impl; [exact Hds|]. intros d Hd. by apply dec_char_facts. }
  unfold str_of_int. destruct (z <? 0)%Z.
  - change (lit "-") with [45].
    rewrite to_ascii_numeral_ascii, strip_dec_chars; try done; [by right|].
    by apply List.Forall_cons.
  - by rewrite to_ascii_numeral_ascii, (strip_dec_chars []); try done; left.
Qed.

(** The decimal numeral of an integer, when it has no more digits than the
    limit allows, is a literal [int] reads, and [int] reads it as that
    integer. *)
Lemma int_literal_str_of_int z :
  over_limit (count_digits (str_of_int z)) = false -> int_literal (str_of_int z) = Some z.
Proof.
  intros Hlimit.
  pose proof (digits_bound 10 (Z.abs_N z) ltac:(done)) as Hds.
  pose proof (digits_nonempty 10 (Z.abs_N z)) as Hne.
  pose proof (of_digits_digits 10 (Z.abs_N z) ltac:(lia)) as Hval.
  unfold of_digits in Hval.
  unfold int_literal. rewrite strip_str_of_int. cbv zeta. rewrite Hlimit.
  unfold str_of_int.
  destruct (Z.ltb_spec z 0) as [Hneg|Hpos].
  - change (lit "-") with [45].
    cbn [app]. change (45 =? 45) with true. cbv iota.
    rewrite int_digits_dec_chars by (by try left). cbn [option_map].
    rewrite Hval. f_equal. lia.
  - rewrite app_nil_l.
    destruct (digits 10 (Z.abs_N z)) as [|d ds] eqn:Hdigits; [done|].
    pose proof Hds as Hds'. apply Forall_cons in Hds' as [Hd _].
    destruct (dec_char_facts d Hd) as (_ & _ & _ & H45 & H43 & _).
    cbn [map]. rewrite H45, H43.
    change (dec_char d :: map dec_char ds) with (map dec_char (d :: ds)).
    rewrite int_digits_dec_chars by (by try left). cbn [option_map].
    rewrite Hval. f_equal. lia.
Qed.

(** A numeral beyond the limit is not read. *)
Lemma int_literal_over_limit z :
  over_limit (count_digits (str_of_int z)) = true -> int_literal (str_of_int z) = None.
Proof.
  intros Hlimit. unfold int_literal. rewrite strip_str_of_int. cbv zeta.
  rewrite Hlimit. by destruct (str_of_int z).
Qed.

(** Which numerals the limit allows: those of the integers below [10^640]
    in absolute value, whatever the limit is; and, with a limit of [640]
    digits or more, none from [10^limit] on. *)
Lemma over_limit_below z :
  (Z.abs z < 10 ^ 640)%Z -> over_limit (count_digits (str_of_int z)) = false.
Proof.
  intros Hz. rewrite count_digits_str_of_int.
  assert (length (digits 10 (Z.abs_N z)) <= 640)%nat as Hlen.
  { apply digits_length; [done| |lia].
    assert (Z.of_N (Z.abs_N z) < Z.of_N (10 ^ N.of_nat 640))%Z; [|lia].
    rewrite N2Z.inj_abs_N, N2Z.inj_pow, nat_N_Z.
    change (Z.of_nat 640) with 640%Z. exact Hz. }
  unfold over_limit. apply Nat.ltb_ge in Hlen. by rewrite Hlen.
Qed.

Lemma over_limit_beyond z :
  (640 <= int_max_str_digits)%nat -> (10 ^ Z.of_nat int_max_str_digits <= z)%Z ->
  over_limit (count_digits (str_of_int z)) = true.
Proof.
  intros Hmin Hz. rewrite count_digits_str_of_int.
  assert (int_max_str_digits < length (digits 10 (Z.abs_N z)))%nat as Hlen.
  { apply digits_length_gt; [done|].
    assert (0 < 10 ^ Z.of_nat int_max_str_digits)%Z by (apply Z.pow_pos_nonneg; lia).
    assert (Z.of_N (10 ^ N.of_nat int_max_str_digits) <= Z.of_N (Z.abs_N z))%Z; [|lia].
    rewrite N2Z.inj_abs_N, N2Z.inj_pow, nat_N_Z.
    change (Z.of_N 10) with 10%Z. lia. }
  unfold over_limit. apply andb_true_iff. split; [apply andb_true_iff; split|].
  - apply Nat.ltb_lt. lia.
  - apply Nat.ltb_lt. lia.
  - by apply Nat.ltb_lt.
Qed.

End IntLiteral.

(** * The claims of the specification *)

Section Claims.
Context {U : Unicode} {I : Interpreter} {F : fake.Provider} {C : Clock}.

Import data_generator.

(** C1, amended.  For every count [n >= 0] whose decimal numeral has no
    more digits than the limit of [int] allows: the numeral of [n] is an
    argument that [int] reads as [n]; and run with a single command-line
    argument that [int] reads as [n], the generator script ends with status
    0, and its standard output is [n] lines, each the JSON text of one
    generated record (a JSON object, so not blank) ended by a newline,
    followed by exactly one empty line and nothing else. *)
Theorem driver_emits_count_records
    (prog : str) (n : Z) (env file : gmap str str) (o : Oracle) :
  (0 <= n)%Z ->
  over_limit (count_digits (str_of_int n)) = false ->
  int_literal (str_of_int n) = Some n
  /\ forall arg : str,
       int_literal arg = Some n ->
       exists js : list str,
         let e := run_script (script [prog; arg]) (start env file o) in
         status e = 0%Z
         /\ Z.of_nat (length js) = n
         /\ Forall record_line js
         /\ Forall json_line js
         /\ out e = concat (map (fun j => j ++ [NL]) js) ++ [NL]
         /\ lines (out e) = (js ++ [[]], []).
Proof.
  intros Hn Hlimit. split; [by apply int_literal_str_of_int|]. intros arg Harg.
  destruct (script_runs prog arg n env file o Harg) as (js & o' & Hlen & Hjs & Hrun).
  assert (Forall json_line js) as Hshape.
  { eapply Forall_impl; [exact Hjs|]. apply record_line_json_line. }
  exists js. unfold run_script. rewrite Hrun. cbn [status out stdout with_stdout].
  split; [done|]. split; [unfold range_len in Hlen; lia|].
  split; [done|]. split; [done|]. split; [done|].
  rewrite lines_record_lines; [done|].
  eapply Forall_impl; [exact Hshape|]. by intros j (_ & _ & ?).
Qed.

(** C3. When the count argument is missing, or is text that [int] does not
    read, the script is ended by the unhandled [IndexError] or [ValueError]
    of that step: the status is 1 and nothing was written to standard
    output. *)
Theorem driver_fails_on_bad_count
    (argv : list str) (env file : gmap str str) (o : Oracle) :
  skipn 1 argv = [] \/ (exists arg rest, skipn 1 argv = arg :: rest /\ int_literal arg = None) ->
  let p := start env file o in
  status (run_script (script argv) p) = 1%Z
  /\ out (run_script (script argv) p) = []
  /\ exists msg p',
       stdout p' = []
       /\ (script argv p = (Raise (IndexError msg), p')
           \/ script argv p = (Raise (ValueError msg), p')).
Proof.
  intros Hargv p.
  unfold run_script, script, main, bind, load_dotenv, index, int.
  destruct Hargv as [Hargs | (arg & rest & Hargs & Harg)]; rewrite Hargs; simpl.
  - split; [done|]. split; [done|]. eexists _, _. split; [|by left]. done.
  - rewrite Harg. simpl.
    split; [done|]. split; [done|]. eexists _, _. split; [|by right]. done.
Qed.

(** C9. With a count argument that [int] reads as a negative number the
    script does not fail: it writes no record line, only the closing empty
    line, and ends with status 0. *)
Theorem driver_negative_count
    (prog arg : str) (n : Z) (env file : gmap str str) (o : Oracle) :
  int_literal arg = Some n -> (n < 0)%Z ->
  let e := run_script (script [prog; arg]) (start env file o) in
  status e = 0%Z /\ out e = [NL] /\ lines (out e) = ([[]], []).
Proof.
  intros Harg Hn.
  destruct (script_runs prog arg n env file o Harg) as (js & o' & Hlen & _ & Hrun).
  unfold range_len in Hlen.
  destruct js; [|simpl in Hlen; lia].
  cbv zeta. unfold run_script. rewrite Hrun. done.
Qed.

(** What holds of the one record a call emits holds of every record the
    call emits. *)
Ltac every_emitted p r Hgen :=
  let r0 := fresh "r" in
  let Hemit0 := fresh "Hemit" in
  destruct (print_client_support_emits p) as (r0 & Hgen & Hemit0);
  split; [by exists r0|];
  let Hemit := fresh "Hemit" in
  intros r Hemit;
  rewrite <- (emits_functional p r0 r Hemit0 Hemit);
  clear r Hemit.

(** C4. A call of [print_client_support] emits a record, and every record
    it emits has an [item] that is one of the 29 entries of [inventory]. *)
Theorem emitted_item_in_inventory (p : Proc) :
  length inventory = 29%nat
  /\ (exists r, emits p r)
  /\ forall r, emits p r ->
       exists item, field r "item" = Some (PStr item) /\ item ∈ inventory.
Proof.
  split; [done|]. every_emitted p r Hgen.
  destruct Hgen as [txid rfid item purchase_time days name address phone email
                      emergency_contact Hrfid Hitem Hdays _ _ _ _ _].
  exists item. split; [reflexivity | done].
Qed.

(** C5. A call of [print_client_support] emits a record, and every record
    it emits has an integer [days] with [1 <= days <= 7]. *)
Theorem emitted_days_in_range (p : Proc) :
  (exists r, emits p r)
  /\ forall r, emits p r ->
       exists days, field r "days" = Some (PInt days) /\ (1 <= days <= 7)%Z.
Proof.
  every_emitted p r Hgen.
  destruct Hgen as [txid rfid item purchase_time days name address phone email
                      emergency_contact Hrfid Hitem Hdays _ _ _ _ _].
  exists days. split; [reflexivity | done].
Qed.

(** C6. A call of [print_client_support] emits a record, and every record
    it emits has an [rfid] that is [hex] of a number [v < 2^96]: the prefix
    [0x] and then the lower-case hexadecimal digits of [v], which read back
    as [v]. *)
Theorem emitted_rfid_is_hex_of_96_bits (p : Proc) :
  (exists r, emits p r)
  /\ forall r, emits p r ->
       exists v,
         v < 2 ^ 96
         /\ field r "rfid" = Some (PStr (hex (Z.of_N v)))
         /\ hex (Z.of_N v) = lit "0x" ++ map hex_char (digits 16 v)
         /\ hex_digits_value 0 (map hex_char (digits 16 v)) = Some v.
Proof.
  every_emitted p r Hgen.
  destruct Hgen as [txid rfid item purchase_time days name address phone email
                      emergency_contact Hrfid Hitem Hdays _ _ _ _ _].
  exists rfid. split; [done|]. split; [reflexivity|].
  split; [|apply hex_digits_value_digits].
  unfold hex. rewrite Zabs2N.id.
  by destruct (Z.ltb_spec (Z.of_N rfid) 0); [lia|].
Qed.

(** C7. A call of [print_client_support] emits a record, and every record
    it emits has the [expiration_time] ["2023-06-01"], the ISO 8601 form of
    the date [date(2023, 6, 1)], whatever the state the call is made in. *)
Theorem emitted_expiration_time_constant (p : Proc) :
  (exists r, emits p r)
  /\ forall r, emits p r ->
       field r "expiration_time" = Some (PStr (lit "2023-06-01")).
Proof.
  every_emitted p r Hgen.
  destruct Hgen as [txid rfid item purchase_time days name address phone email
                      emergency_contact Hrfid Hitem Hdays _ _ _ _ _].
  reflexivity.
Qed.

(** C8. A call of [print_client_support] emits a record, and every record
    it emits has an [address] that is [None] or a dictionary with exactly
    the keys [street_address], [city], [state], [postalcode], in which the
    state was drawn by [state_abbr] and the postal code was drawn by
    [postalcode_in_state] for the state stored next to it, and so is a
    postal code of that state. *)
Theorem emitted_address_consistent (p : Proc) :
  (exists r, emits p r)
  /\ forall r, emits p r ->
       exists address,
         field r "address" = Some address
         /\ (address = PNone
             \/ exists street city st pc,
                  address = PDict [(lit "street_address", PStr street);
                                   (lit "city", PStr city);
                                   (lit "state", PStr st);
                                   (lit "postalcode", PStr pc)]
                  /\ (exists o, st = (fake.state_abbr o).1)
                  /\ (exists o, pc = (fake.postalcode_in_state st o).1)
                  /\ fake.in_state st pc).
Proof.
  every_emitted p r Hgen.
  destruct Hgen as [txid rfid item purchase_time days name address phone email
                      emergency_contact Hrfid Hitem Hdays _ Haddress _ _ _].
  exists address. split; [reflexivity|].
  destruct Haddress as [->|(street & city & st & pc & -> & _ & _ & [o ->] & [o' ->])];
    [by left | right].
  eexists _, _, _, _. split; [done|]. split; [by eexists|]. split; [by eexists|].
  apply fake.postalcode_in_state_valid.
Qed.



End Claims.

(** * The claims on the sample installation *)

Section Runs.

#[local] Existing Instance ascii_only.
#[local] Existing Instance ascii_stdout.
#[local] Existing Instance Sample.provider.
#[local] Existing Instance Sample.clock.

Definition PROG : str := lit "data_generator.py".

(** The count [3], given as [3]: three record lines and the empty line. *)
Lemma driver_emits_count_records_witness :
  str_of_int 3 = lit "3"
  /\ exists js : list str,
       let e := run_script (data_generator.script [PROG; lit "3"])
                  (start ∅ ∅ (Sample.oracle 1)) in
       status e = 0%Z
       /\ Z.of_nat (length js) = 3%Z
       /\ Forall record_line js
       /\ Forall json_line js
       /\ out e = concat (map (fun j => j ++ [NL]) js) ++ [NL]
       /\ lines (out e) = (js ++ [[]], []).
Proof.
  split; [reflexivity|].
  destruct (driver_emits_count_records PROG 3 ∅ ∅ (Sample.oracle 1)) as [_ Hrun];
    [lia | reflexivity |].
  apply (Hrun (lit "3")). reflexivity.
Defined.

(** The count [10^4300], given as its numeral, under the default limit of
    4300 digits: [int] does not read the numeral, and the script ends with
    status 1 and has written nothing. *)
Lemma driver_count_beyond_digit_limit :
  let n := (10 ^ 4300)%Z in
  let e := run_script (data_generator.script [PROG; str_of_int n])
             (start ∅ ∅ (Sample.oracle 1)) in
  (0 <= n)%Z
  /\ int_literal (str_of_int n) = None
  /\ status e = 1%Z
  /\ out e = [].
Proof.
  cbv zeta.
  assert (int_literal (str_of_int (10 ^ 4300)) = None) as Hint.
  { apply int_literal_over_limit, over_limit_beyond.
    - apply Nat.leb_le. vm_compute. reflexivity.
    - change (Z.of_nat int_max_str_digits) with (Z.of_nat 4300).
      replace (Z.of_nat 4300) with 4300%Z by (vm_compute; reflexivity).
      apply Z.le_refl. }
  split; [apply Z.pow_nonneg; lia|]. split; [exact Hint|].
  destruct (run_script_stops_at_int PROG _ ∅ ∅ (Sample.oracle 1) Hint) as (Hstatus & Hout & _).
  split; [exact Hstatus | exact Hout].
Qed.

(** No argument, and an argument that is no numeral. *)
Lemma driver_fails_on_bad_count_witness :
  (status (run_script (data_generator.script [PROG]) (start ∅ ∅ (Sample.oracle 1))) = 1%Z
   /\ out (run_script (data_generator.script [PROG]) (start ∅ ∅ (Sample.oracle 1))) = [])
  /\ (status (run_script (data_generator.script [PROG; lit "ten"]) (start ∅ ∅ (Sample.oracle 1)))
      = 1%Z
      /\ out (run_script (data_generator.script [PROG; lit "ten"]) (start ∅ ∅ (Sample.oracle 1)))
         = []).
Proof.
  split.
  - destruct (driver_fails_on_bad_count [PROG] ∅ ∅ (Sample.oracle 1)) as (Hs & Ho & _);
      [left; reflexivity | by split].
  - destruct (driver_fails_on_bad_count [PROG; lit "ten"] ∅ ∅ (Sample.oracle 1))
      as (Hs & Ho & _);
      [right; exists (lit "ten"), []; split; reflexivity | by split].
Defined.

(** The count [-2]. *)
Lemma driver_negative_count_witness :
  let e := run_script (data_generator.script [PROG; lit "-2"]) (start ∅ ∅ (Sample.oracle 1)) in
  status e = 0%Z /\ out e = [NL] /\ lines (out e) = ([[]], []).
Proof.
  apply (driver_negative_count PROG (lit "-2") (-2) ∅ ∅ (Sample.oracle 1));
    [reflexivity | lia].
Defined.




(** The first record of a sample run, as written. *)
Example sample_first_line :
  (lines (out (run_script (data_generator.script [PROG; lit "1"])
                 (start ∅ ∅ (Sample.oracle 1))))).1 !! 0%nat
  = Some (lit "{" ++ [34] ++ lit "txid" ++ [34] ++ lit ":" ++ [34]
            ++ lit "00000000-0000-4000-8000-00000013c6ef" ++ [34]
            ++ lit "," ++ [34] ++ lit "rfid" ++ [34] ++ lit ":" ++ [34] ++ lit "0x1daa66" ++ [34]
            ++ lit "," ++ [34] ++ lit "item" ++ [34] ++ lit ":" ++ [34]
            ++ lit "Opel Zafira-e Life" ++ [34]
            ++ lit "," ++ [34] ++ lit "purchase_time" ++ [34] ++ lit ":" ++ [34]
            ++ lit "2023-05-17T14:38:04.240278" ++ [34]
            ++ lit "," ++ [34] ++ lit "expiration_time" ++ [34] ++ lit ":" ++ [34]
            ++ lit "2023-06-01" ++ [34]
            ++ lit "," ++ [34] ++ lit "days" ++ [34] ++ lit ":2"
            ++ lit "," ++ [34] ++ lit "name" ++ [34] ++ lit ":" ++ [34] ++ lit "Lee Marsh" ++ [34]
            ++ lit "," ++ [34] ++ lit "address" ++ [34] ++ lit ":{"
            ++ [34] ++ lit "street_address" ++ [34] ++ lit ":" ++ [34]
            ++ lit "12 Elm Street" ++ [34]
            ++ lit "," ++ [34] ++ lit "city" ++ [34] ++ lit ":" ++ [34] ++ lit "Lake Anna" ++ [34]
            ++ lit "," ++ [34] ++ lit "state" ++ [34] ++ lit ":" ++ [34] ++ lit "CT" ++ [34]
            ++ lit "," ++ [34] ++ lit "postalcode" ++ [34] ++ lit ":" ++ [34] ++ lit "06206" ++ [34]
            ++ lit "}"
            ++ lit "," ++ [34] ++ lit "phone" ++ [34] ++ lit ":null"
            ++ lit "," ++ [34] ++ lit "email" ++ [34] ++ lit ":null"
            ++ lit "," ++ [34] ++ lit "emergency_contact" ++ [34] ++ lit ":null}").
Proof. vm_compute. reflexivity. Qed.

(** The two failures of the count, as reported. *)
Example sample_missing_count :
  let e := run_script (data_generator.script [PROG]) (start ∅ ∅ (Sample.oracle 1)) in
  (status e, out e, err e) = (1%Z, [], lit "IndexError: list index out of range" ++ [NL]).
Proof. vm_compute. reflexivity. Qed.

Example sample_bad_count :
  let e := run_script (data_generator.script [PROG; lit "3.5"]) (start ∅ ∅ (Sample.oracle 1)) in
  (status e, out e, err e)
  = (1%Z, [], lit "ValueError: invalid literal for int() with base 10: '3.5'" ++ [NL]).
Proof. vm_compute. reflexivity. Qed.

(** The key preview: no key; a key in the environment, which a key of the
    .env file does not replace; a key from the .env file alone. *)
Example sample_key_unset :
  let e := run_script load_key.script (start ∅ ∅ (Sample.oracle 1)) in
  (status e, out e, err e) = (1%Z, [], lit "SNOWFLAKE_PRIVATE_KEY not set" ++ [NL]).
Proof. vm_compute. reflexivity. Qed.

Example sample_key_environment :
  let e := run_script load_key.script
             (start {[ load_key.KEY := lit "-----BEGIN" ++ [NL] ++ lit "MII" ]}
                    {[ load_key.KEY := lit "other" ]} (Sample.oracle 1)) in
  (status e, out e, err e) = (0%Z, lit "First 60 chars: '-----BEGIN\nMII'" ++ [NL], []).
Proof. vm_compute. reflexivity. Qed.

Example sample_key_dotenv :
  let e := run_script load_key.script
             (start ∅ {[ load_key.KEY := lit "other" ]} (Sample.oracle 1)) in
  (status e, out e, err e) = (0%Z, lit "First 60 chars: 'other'" ++ [NL], []).
Proof. vm_compute. reflexivity. Qed.

End Runs.

(** * Further properties of the scripts *)

(** ** The shape of a record *)

Section Records.
Context {U : Unicode} {I : Interpreter} {F : fake.Provider} {C : Clock}.

Import data_generator.

(** From the one record a call emits to every record it emits. *)
Ltac each_emitted p r Hgen :=
  let r0 := fresh "r" in
  let Hemit0 := fresh "Hemit" in
  destruct (print_client_support_emits p) as (r0 & Hgen & Hemit0);
  split; [by exists r0|];
  let Hemit := fresh "Hemit" in
  intros r Hemit;
  rewrite <- (emits_functional p r0 r Hemit0 Hemit);
  clear r Hemit.

(** X1. Every record a call emits is a dictionary with the same eleven
    keys in the same order; [txid], [rfid], [item], [purchase_time],
    [expiration_time] and [name] are text and [days] is an integer, so none
    of the seven is ever [None]. *)
Theorem emitted_record_schema (p : Proc) :
  (exists r, emits p r)
  /\ forall r, emits p r ->
       exists txid rfid item purchase_time expiration_time days name
              address phone email emergency_contact,
         r = PDict [(lit "txid", PStr txid);
                    (lit "rfid", PStr rfid);
                    (lit "item", PStr item);
                    (lit "purchase_time", PStr purchase_time);
                    (lit "expiration_time", PStr expiration_time);
                    (lit "days", PInt days);
                    (lit "name", PStr name);
                    (lit "address", address);
                    (lit "phone", phone);
                    (lit "email", email);
                    (lit "emergency_contact", emergency_contact)].
Proof.
  each_emitted p r Hgen. destruct Hgen. by eexists _, _, _, _, _, _, _, _, _, _, _.
Qed.

(** X2. In every record a call emits, [phone] and [email] are each [None]
    or text, and [emergency_contact] is [None] or a dictionary with exactly
    the keys [name] and [phone], both text. *)
Theorem emitted_nullable_fields (p : Proc) :
  (exists r, emits p r)
  /\ forall r, emits p r ->
       exists phone email emergency_contact,
         field r "phone" = Some phone
         /\ field r "email" = Some email
         /\ field r "emergency_contact" = Some emergency_contact
         /\ (phone = PNone \/ exists s, phone = PStr s)
         /\ (email = PNone \/ exists s, email = PStr s)
         /\ (emergency_contact = PNone
             \/ exists contact_name contact_phone,
                  emergency_contact
                  = PDict [(lit "name", PStr contact_name);
                           (lit "phone", PStr contact_phone)]).
Proof.
  each_emitted p r Hgen.
  destruct Hgen as [txid rfid item purchase_time days name address phone email
                      emergency_contact _ _ _ _ _ Hphone Hemail Hcontact].
  exists phone, email, emergency_contact.
  split; [reflexivity|]. split; [reflexivity|]. split; [reflexivity|].
  split; [|split].
  - destruct Hphone as [->|(s & -> & _)]; [by left | right; by eexists].
  - destruct Hemail as [->|(s & -> & _)]; [by left | right; by eexists].
  - destruct Hcontact as [->|(n & ph & -> & _)]; [by left | right; by eexists _, _].
Qed.

(** X3. A call of [print_client_support] returns normally; it appends to
    standard output exactly one line, a JSON object in ASCII characters
    from the blank on, and its newline; and it leaves standard error and
    the environment as they were. *)
Theorem print_client_support_appends_one_line (p : Proc) :
  exists j p',
    print_client_support p = (Ok tt, p')
    /\ stdout p' = stdout p ++ j ++ [NL]
    /\ lines (j ++ [NL]) = ([j], [])
    /\ json_line j
    /\ Forall (fun c => 32 <= c < 128) j
    /\ stderr p' = stderr p
    /\ environ p' = environ p
    /\ dotenv_file p' = dotenv_file p.
Proof.
  destruct (print_client_support_emits p) as (r & Hgen & Hemit).
  pose proof Hemit as (j & o & _ & Hj & Hp).
  assert (json_line j) as Hline by (apply record_line_json_line; by exists p, r).
  exists j, (with_stdout (stdout p ++ j ++ [NL]) (with_oracle o p)).
  split; [done|]. split; [done|]. split.
  { destruct Hline as (_ & _ & Hnl). by rewrite (lines_line j [] Hnl). }
  split; [done|]. split; [|done].
  eapply Forall_impl; [by eapply plain_json_value|].
  intros c Hc. unfold plain in Hc. lia.
Qed.

End Records.

(** ** What the generator depends on *)











Section Dependence.
Context {U : Unicode} {I : Interpreter} {F : fake.Provider} {C : Clock}.

Import data_generator.








(** X5. Of the command line the generator reads [argv[1]] only: two
    command lines with the same [argv[1]] (or both without one) give the
    same run, whatever the script name and the further arguments are. *)
Theorem generator_reads_only_first_argument (argv argv' : list str) (p : Proc) :
  argv !! 1%nat = argv' !! 1%nat ->
  script argv p = script argv' p.
Proof.
  intros Harg. unfold script, main, bind, load_dotenv, index. simpl.
  rewrite !lookup_drop. simpl. by rewrite Harg.
Qed.

(** The run of the script with a count argument that [int] reads: the
    loop, then the closing [print('')]. *)
Lemma script_with_count prog arg n p :
  int_literal arg = Some n ->
  script [prog; arg] p
  = bind (for_range (range_len n) print_client_support) (fun _ => print [lit ""])
      (with_environ (environ p ∪ dotenv_file p) p).
Proof.
  intros Harg. unfold script, main, load_dotenv, index, int. cbn [skipn lookup list_lookup].
  unfold bind at 1 2 3, ret. cbv beta iota. by rewrite Harg.
Qed.

Lemma for_range_add n m (body : M unit) p :
  for_range (n + m) body p = bind (for_range n body) (fun _ => for_range m body) p.
Proof.
  revert p. induction n as [|n IH]; intros p; [done|].
  simpl. unfold bind in *. destruct (body p) as [[[]|e] p1]; [apply IH | done].
Qed.

(** X6. A run with a count argument that [int] reads, of either sign,
    ends with status 0, writes nothing to standard error, and writes
    [max(n, 0) + 1] complete lines, the closing empty line included, to
    standard output. *)
Theorem generator_success_is_quiet
    (prog arg : str) (n : Z) (env file : gmap str str) (o : Oracle) :
  int_literal arg = Some n ->
  let e := run_script (script [prog; arg]) (start env file o) in
  status e = 0%Z
  /\ err e = []
  /\ length (lines (out e)).1 = S (Z.to_nat n)
  /\ (lines (out e)).2 = [].
Proof.
  intros Harg.
  destruct (script_runs prog arg n env file o Harg) as (js & o' & Hlen & Hjs & Hrun).
  cbv zeta. unfold run_script. rewrite Hrun. cbn [status out err stdout stderr with_stdout].
  split; [done|]. split; [done|].
  rewrite lines_record_lines.
  - simpl. rewrite length_app. unfold range_len in Hlen. simpl. split; [lia | done].
  - eapply Forall_impl; [exact Hjs|]. intros j Hj.
    by destruct (record_line_json_line j Hj) as (_ & _ & ?).
Qed.

(** X7. Asking for more records does not change the first ones: from the
    same state of the process, the record lines of a run with count [n] are
    the first [n] record lines of a run with count [n + m]. *)
Theorem generator_count_extends
    (prog arg arg' : str) (n m : Z) (env file : gmap str str) (o : Oracle) :
  (0 <= n)%Z -> (0 <= m)%Z ->
  int_literal arg = Some n -> int_literal arg' = Some (n + m)%Z ->
  exists js js' : list str,
    Z.of_nat (length js) = n /\ Z.of_nat (length js') = m
    /\ out (run_script (script [prog; arg]) (start env file o))
       = concat (map (fun j => j ++ [NL]) js) ++ [NL]
    /\ out (run_script (script [prog; arg']) (start env file o))
       = concat (map (fun j => j ++ [NL]) (js ++ js')) ++ [NL].
Proof.
  intros Hn Hm Harg Harg'.
  set (p0 := with_environ (env ∪ file) (start env file o)).
  destruct (for_range_print_client_support (range_len n) p0)
    as (js & o1 & Hlen & _ & Hloop).
  set (p1 := with_stdout (stdout p0 ++ concat (map (fun j => j ++ [NL]) js))
               (with_oracle o1 p0)) in Hloop.
  destruct (for_range_print_client_support (range_len m) p1)
    as (js' & o2 & Hlen' & _ & Hloop').
  exists js, js'. unfold range_len in *.
  split; [lia|]. split; [lia|]. split.
  - unfold run_script.
    assert (script [prog; arg] (start env file o)
            = bind (for_range (Z.to_nat n) print_client_support)
                (fun _ => print [lit ""]) p0) as ->
      by (by apply script_with_count).
    unfold bind. rewrite Hloop, print_empty. done.
  - unfold run_script.
    assert (script [prog; arg'] (start env file o)
            = bind (for_range (Z.to_nat n + Z.to_nat m) print_client_support)
                (fun _ => print [lit ""]) p0) as ->.
    { rewrite <- Z2Nat.inj_add by done. by apply script_with_count. }
    unfold bind at 1. rewrite for_range_add.
    unfold bind at 1. rewrite Hloop, Hloop', print_empty.
    cbn [out stdout with_stdout with_oracle p0 p1 start with_environ].
    rewrite map_app, concat_app, <- !app_assoc. done.
Qed.

End Dependence.

(** ** The preview of the key *)

Section Preview.
Context {U : Unicode} {I : Interpreter}.

(** A short list of characters, none of them the line break. *)
Ltac no_NL :=
  repeat (apply not_elem_of_cons; split; [unfold NL, BACKSLASH in *; lia|]);
  apply not_elem_of_nil.

Lemma repr_char_no_NL quote c : quote ≠ NL -> NL ∉ repr_char quote c.
Proof.
  intros Hq. unfold repr_char.
  assert (forall (prefix : str) w n, Forall plain prefix -> NL ∉ (prefix ++ fmt_0x w n))
    as Hesc.
  { intros prefix w n Hprefix. apply plain_not_NL, Forall_app.
    split; [done | apply plain_fmt_0x]. }
  destruct ((c =? quote) || (c =? BACKSLASH)) eqn:Hdelim.
  { apply orb_true_iff in Hdelim as [Hc|Hc]; apply N.eqb_eq in Hc; subst c; no_NL. }
  destruct (c =? 9); [apply plain_not_NL; plain_lit|].
  destruct (c =? 10); [apply plain_not_NL; plain_lit|].
  destruct (c =? 13); [apply plain_not_NL; plain_lit|].
  destruct ((c <? 32) || (c =? 127)) eqn:Hctl; [apply Hesc; plain_lit|].
  apply orb_false_iff in Hctl as [Hctl _]. apply N.ltb_ge in Hctl.
  destruct (N.ltb_spec c 127); [no_NL|].
  destruct (isprintable c); [no_NL|].
  destruct (c <=? 255); [apply Hesc; plain_lit|].
  destruct (c <=? 65535); apply Hesc; plain_lit.
Qed.

(** [repr] of a text has no line break, whatever the text. *)
Lemma repr_no_NL s : NL ∉ repr s.
Proof.
  unfold repr.
  set (quote := if mem QUOTE s && negb (mem DQUOTE s) then DQUOTE else QUOTE).
  assert (quote ≠ NL) as Hq by (subst quote; by destruct (_ && _)).
  rewrite !not_elem_of_app. split; [no_NL|]. split; [|no_NL].
  intros Hin. apply list_elem_of_In, in_concat in Hin as (piece & Hpiece & Hin).
  apply in_map_iff in Hpiece as (c & <- & _).
  by apply list_elem_of_In, repr_char_no_NL in Hin.
Qed.

Lemma lines_no_NL s : NL ∉ s -> lines s = ([], s).
Proof.
  induction s as [|c s IH]; intros Hs; [done|].
  apply not_elem_of_cons in Hs as [Hc Hs]. cbn [lines]. rewrite (IH Hs).
  by destruct (N.eqb_spec c NL).
Qed.

(** X8. The preview is never more than one line, also for a key that has
    line breaks (as a PEM key has), for [repr] writes every line break of
    the key as an escape: when standard output takes the [repr], it is the
    single line [First 60 chars: ] and the [repr]; when it does not, it is
    the beginning [First 60 chars: ] of a line, not ended. *)
Theorem key_preview_is_one_line (env file : gmap str str) (o : Oracle) (pem : str) :
  let p := start env file o in
  environ (load_dotenv p).2 !! load_key.KEY = Some pem ->
  (NL ∉ repr (slice_to 60 pem))
  /\ lines (out (run_script load_key.script p))
     = (if stdout_writable (repr (slice_to 60 pem))
        then ([lit "First 60 chars: " ++ repr (slice_to 60 pem)], [])
        else ([], lit "First 60 chars: ")).
Proof.
  intros p Hpem. subst p.
  cbn [load_dotenv snd environ with_environ start dotenv_file] in Hpem.
  split; [apply repr_no_NL|].
  rewrite load_key_runs, Hpem. cbv zeta.
  destruct (stdout_writable (repr (slice_to 60 pem))); cbn [out].
  - change (lines ((lit "First 60 chars: " ++ repr (slice_to 60 pem)) ++ NL :: [])
            = ([lit "First 60 chars: " ++ repr (slice_to 60 pem)], [])).
    rewrite lines_line; [done|].
    rewrite not_elem_of_app. split; [apply plain_not_NL; plain_lit | apply repr_no_NL].
  - apply lines_no_NL, plain_not_NL. plain_lit.
Qed.

(** X9. Of a key of 60 characters or more only the first 60 count: the run
    prints the [repr] of these when standard output takes it, and stops
    with status 1 after [First 60 chars: ] when it does not; what follows
    them in the key changes nothing. *)
Theorem key_preview_shows_only_60
    (env file : gmap str str) (o : Oracle) (shown rest : str) :
  let p := start env file o in
  length shown = 60%nat ->
  environ (load_dotenv p).2 !! load_key.KEY = Some (shown ++ rest) ->
  let e := run_script load_key.script p in
  if stdout_writable (repr shown)
  then status e = 0%Z
       /\ out e = lit "First 60 chars: " ++ repr shown ++ [NL]
       /\ err e = []
  else status e = 1%Z
       /\ out e = lit "First 60 chars: "
       /\ err e = lit "UnicodeEncodeError: " ++ stdout_error (repr shown) ++ [NL].
Proof.
  intros p Hlen Hpem e. subst p e.
  cbn [load_dotenv snd environ with_environ start dotenv_file] in Hpem.
  rewrite load_key_runs, Hpem.
  unfold slice_to. rewrite firstn_app, Hlen, Nat.sub_diag, firstn_O, app_nil_r.
  rewrite firstn_all2 by lia. cbv zeta.
  by destruct (stdout_writable (repr shown)).
Qed.

(** X10. Where the key comes from: a value in the environment of the
    process is the one previewed, whatever the .env file says; without
    one, the value of the .env file is previewed; with neither, the script
    fails with status 1.  A value is previewed in full when standard
    output takes the preview, and up to [First 60 chars: ], with status 1,
    when it does not. *)
Theorem key_preview_precedence (env file : gmap str str) (o : Oracle) :
  let e := run_script load_key.script (start env file o) in
  let previews (pem : str) :=
    let preview := repr (slice_to 60 pem) in
    if stdout_writable preview
    then status e = 0%Z /\ out e = lit "First 60 chars: " ++ preview ++ [NL]
    else status e = 1%Z /\ out e = lit "First 60 chars: " in
  match env !! load_key.KEY, file !! load_key.KEY with
  | Some pem, _ => previews pem
  | None, Some pem => previews pem
  | None, None => status e = 1%Z /\ out e = []
  end.
Proof.
  cbv zeta. rewrite load_key_runs.
  destruct (env !! load_key.KEY) as [pem|] eqn:Henv.
  - rewrite (lookup_union_Some_l _ _ _ _ Henv). cbv zeta.
    by destruct (stdout_writable (repr (slice_to 60 pem))).
  - rewrite (lookup_union_r _ _ _ Henv).
    destruct (file !! load_key.KEY) as [pem|]; [|done]. cbv zeta.
    by destruct (stdout_writable (repr (slice_to 60 pem))).
Qed.

End Preview.

(** ** Width and digits of numerals *)

Lemma length_fmt_0d w z :
  (0 <= z < 10 ^ Z.of_nat w)%Z -> (0 < w)%nat -> length (fmt_0d w z) = w.
Proof.
  intros Hz Hw. unfold fmt_0d. destruct (Z.ltb_spec z 0); [lia|].
  apply length_zfill. rewrite length_map. apply digits_length; [done| |done].
  assert (Z.of_N (Z.abs_N z) < Z.of_N (10 ^ N.of_nat w))%Z; [|lia].
  rewrite N2Z.inj_abs_N, N2Z.inj_pow, nat_N_Z. simpl Z.of_N. lia.
Qed.

(** The digit at a position of a numeral, padded or not. *)
Lemma digit_at base ds i d :
  Forall (fun d => d < base) ds -> ds !! i = Some d ->
  d = (of_digits base ds / base ^ N.of_nat (length ds - 1 - i)) mod base.
Proof.
  intros Hds Hi.
  pose proof (take_drop_middle ds i d Hi) as Hsplit.
  pose proof (lookup_lt_Some _ _ _ Hi) as Hlt.
  assert (d < base) as Hd by (eapply (Forall_lookup_1 _ _ _ _ Hds); done).
  assert (base ≠ 0) as Hb by lia.
  rewrite <- Hsplit at 1.
  change (d :: drop (S i) ds) with ([d] ++ drop (S i) ds).
  rewrite app_assoc, of_digits_app, of_digits_snoc, length_drop.
  replace (length ds - S i)%nat with (length ds - 1 - i)%nat by lia.
  assert (of_digits base (drop (S i) ds) < base ^ N.of_nat (length ds - 1 - i)) as Hpost.
  { replace (length ds - 1 - i)%nat with (length (drop (S i) ds))
      by (rewrite length_drop; lia).
    apply of_digits_lt. by apply Forall_drop. }
  rewrite N.div_add_l by (by apply N.pow_nonzero).
  rewrite (N.div_small _ _ Hpost), N.add_0_r.
  rewrite N.add_comm, N.Div0.mod_add. by rewrite N.mod_small.
Qed.

Lemma of_digits_zeros base k ds :
  of_digits base (repeat 0 k ++ ds) = of_digits base ds.
Proof.
  rewrite of_digits_app.
  assert (of_digits base (repeat 0 k) = 0) as ->; [|lia].
  induction k as [|k IH]; [done|].
  change (repeat 0 (S k)) with ([0] ++ repeat 0 k).
  rewrite of_digits_app, IH. unfold of_digits. simpl. lia.
Qed.

(** A padded hexadecimal numeral, by its digits. *)
Lemma fmt_0x_digits w n :
  n < 16 ^ N.of_nat w -> (0 < w)%nat ->
  exists ds,
    fmt_0x w n = map hex_char ds /\ length ds = w
    /\ Forall (fun d => d < 16) ds /\ of_digits 16 ds = n.
Proof.
  intros Hn Hw.
  exists (repeat 0 (w - length (digits 16 n)) ++ digits 16 n).
  pose proof (digits_length 16 n w ltac:(lia) Hn Hw) as Hlen.
  split; [|split; [|split]].
  - unfold fmt_0x, zfill. rewrite map_app, length_map. f_equal.
    induction (w - length (digits 16 n))%nat as [|k IH]; [done|]. simpl. by rewrite IH.
  - rewrite length_app, repeat_length. lia.
  - apply Forall_app. split; [|by apply digits_bound].
    apply Forall_forall. intros d Hd. apply list_elem_of_In, repeat_spec in Hd as ->. lia.
  - rewrite of_digits_zeros. apply of_digits_digits. lia.
Qed.

(** ** The identifier of a record *)

(** A number is below [2^n] exactly when it has no bit from [n] on. *)
Lemma testbit_above a n i : a < 2 ^ n -> n <= i -> N.testbit a i = false.
Proof.
  intros Ha Hi. destruct (N.eq_dec a 0) as [->|Hne]; [apply N.bits_0|].
  apply N.bits_above_log2.
  assert (N.log2 a < n); [|lia]. apply N.log2_lt_pow2; lia.
Qed.

Lemma lt_pow2_of_bits a n : (forall i, n <= i -> N.testbit a i = false) -> a < 2 ^ n.
Proof.
  intros Hbits.
  assert (a = a mod 2 ^ n) as ->; [|apply N.mod_lt, N.pow_nonzero; done].
  apply N.bits_inj. intros i.
  destruct (N.lt_ge_cases i n) as [Hlt|Hge].
  - by rewrite N.mod_pow2_bits_low.
  - rewrite N.mod_pow2_bits_high by done. by apply Hbits.
Qed.

(** The fields [UUID(..., version=4)] sets in the 128 bits it is given. *)
Definition uuid_v4_fields (x : N) : N :=
  N.lor (N.ldiff (N.lor (N.ldiff x (N.shiftl 0xc000 48)) (N.shiftl 0x8000 48))
           (N.shiftl 0xf000 64)) (N.shiftl 4 76).

Lemma uuid4_fields o : exists x, x < 2 ^ 128 /\ (uuid4 o).1 = uuid_v4_fields x.
Proof.
  unfold uuid4, getrandbits. destruct (draw o) as [y o'].
  exists (y mod 2 ^ 128). split; [by apply N.mod_lt | done].
Qed.

Lemma testbit_uuid_v4_fields x i :
  N.testbit (uuid_v4_fields x) i
  = (((N.testbit x i && negb (N.testbit (N.shiftl 0xc000 48) i))
      || N.testbit (N.shiftl 0x8000 48) i)
     && negb (N.testbit (N.shiftl 0xf000 64) i))
    || N.testbit (N.shiftl 4 76) i.
Proof.
  unfold uuid_v4_fields. by rewrite N.lor_spec, N.ldiff_spec, N.lor_spec, N.ldiff_spec.
Qed.

Lemma uuid_v4_fields_lt x : x < 2 ^ 128 -> uuid_v4_fields x < 2 ^ 128.
Proof.
  intros Hx. apply lt_pow2_of_bits. intros i Hi.
  rewrite testbit_uuid_v4_fields.
  rewrite (testbit_above x 128 i Hx Hi).
  rewrite (testbit_above (N.shiftl 0x8000 48) 128 i eq_refl Hi).
  rewrite (testbit_above (N.shiftl 4 76) 128 i eq_refl Hi).
  done.
Qed.

(** A hexadecimal digit of a number, by its four bits. *)
Lemma nibble_bits a k i :
  i < 4 -> N.testbit ((a / 16 ^ k) mod 16) i = N.testbit a (i + 4 * k).
Proof.
  intros Hi. change 16 with (2 ^ 4). rewrite <- N.pow_mul_r.
  rewrite N.mod_pow2_bits_low by done. by rewrite N.div_pow2_bits.
Qed.

Lemma nibble_cases v :
  v < 16 ->
  v = 0 \/ v = 1 \/ v = 2 \/ v = 3 \/ v = 4 \/ v = 5 \/ v = 6 \/ v = 7
  \/ v = 8 \/ v = 9 \/ v = 10 \/ v = 11 \/ v = 12 \/ v = 13 \/ v = 14 \/ v = 15.
Proof. lia. Qed.

(** The version digit is [4]. *)
Lemma uuid_v4_version x : (uuid_v4_fields x / 16 ^ 19) mod 16 = 4.
Proof.
  set (v := (uuid_v4_fields x / 16 ^ 19) mod 16).
  assert (v < 16) as Hv by (by apply N.mod_lt).
  assert (N.testbit v 0 = false /\ N.testbit v 1 = false
          /\ N.testbit v 2 = true /\ N.testbit v 3 = false) as (H0 & H1 & H2 & H3).
  { subst v. rewrite !nibble_bits, !testbit_uuid_v4_fields by done.
    repeat split; simpl N.add;
      match goal with
      | |- _ && negb (N.testbit ?m ?i) || N.testbit ?m' ?i = _ =>
          change (N.testbit m i) with true; change (N.testbit m' i) with false
          || change (N.testbit m' i) with true
      end; by rewrite ?andb_false_r, ?orb_true_r. }
  destruct (nibble_cases v Hv) as
    [->|[->|[->|[->|[->|[->|[->|[->|[->|[->|[->|[->|[->|[->|[->| ->]]]]]]]]]]]]]]];
    done.
Qed.

(** The variant digit is [8], [9], [a] or [b]. *)
Lemma uuid_v4_variant x :
  exists v, (uuid_v4_fields x / 16 ^ 15) mod 16 = v /\ (v = 8 \/ v = 9 \/ v = 10 \/ v = 11).
Proof.
  set (v := (uuid_v4_fields x / 16 ^ 15) mod 16).
  assert (v < 16) as Hv by (by apply N.mod_lt).
  assert (N.testbit v 2 = false /\ N.testbit v 3 = true) as (H2 & H3).
  { subst v. rewrite !nibble_bits, !testbit_uuid_v4_fields by done.
    split; simpl N.add.
    - change (N.testbit (N.shiftl 49152 48) 62) with true.
      change (N.testbit (N.shiftl 32768 48) 62) with false.
      change (N.testbit (N.shiftl 4 76) 62) with false.
      by rewrite andb_false_r.
    - change (N.testbit (N.shiftl 32768 48) 63) with true.
      change (N.testbit (N.shiftl 61440 64) 63) with false.
      change (N.testbit (N.shiftl 4 76) 63) with false.
      by rewrite orb_true_r. }
  exists v. split; [done|].
  destruct (nibble_cases v Hv) as
    [->|[->|[->|[->|[->|[->|[->|[->|[->|[->|[->|[->|[->|[->|[->| ->]]]]]]]]]]]]]]];
    try done; auto.
Qed.

Definition lower_hex (c : N) : Prop := 48 <= c <= 57 \/ 97 <= c <= 102.

(** The text of a version-4 UUID: [xxxxxxxx-xxxx-4xxx-vxxx-xxxxxxxxxxxx],
    every [x] a lower-case hexadecimal digit and [v] one of [8], [9], [a],
    [b]. *)
Definition uuid4_text (s : str) : Prop :=
  exists a b c v d e : str,
    s = a ++ lit "-" ++ b ++ lit "-" ++ [52] ++ c ++ lit "-" ++ v ++ d ++ lit "-" ++ e
    /\ (length a = 8 /\ length b = 4 /\ length c = 3 /\ length d = 3 /\ length e = 12)%nat
    /\ Forall lower_hex (a ++ b ++ c ++ d ++ e)
    /\ (v = lit "8" \/ v = lit "9" \/ v = lit "a" \/ v = lit "b").

Lemma lower_hex_hex_char d : d < 16 -> lower_hex (hex_char d).
Proof. intros Hd. unfold lower_hex, hex_char. destruct (N.ltb_spec d 10); lia. Qed.

Lemma uuid_str_text x : x < 2 ^ 128 -> uuid4_text (uuid_str (uuid_v4_fields x)).
Proof.
  intros Hx. apply uuid_v4_fields_lt in Hx.
  destruct (fmt_0x_digits 32 (uuid_v4_fields x) Hx ltac:(lia))
    as (ds & Hh & Hlen & Hds & Hval).
  assert (Forall lower_hex (fmt_0x 32 (uuid_v4_fields x))) as Hhex.
  { rewrite Hh. apply Forall_map. eapply Forall_impl; [exact Hds|].
    intros d Hd. by apply lower_hex_hex_char. }
  assert (length (fmt_0x 32 (uuid_v4_fields x)) = 32%nat) as Hlenh
    by (by rewrite Hh, length_map).
  assert (fmt_0x 32 (uuid_v4_fields x) !! 12%nat = Some 52) as H12.
  { destruct (lookup_lt_is_Some_2 ds 12 ltac:(lia)) as [d Hd].
    rewrite Hh, list_lookup_fmap, Hd. simpl. f_equal.
    rewrite (digit_at 16 ds 12 d Hds Hd), Hval, Hlen.
    change (N.of_nat (32 - 1 - 12)) with 19. by rewrite uuid_v4_version. }
  assert (exists v, fmt_0x 32 (uuid_v4_fields x) !! 16%nat = Some v
                    /\ (v = 56 \/ v = 57 \/ v = 97 \/ v = 98)) as (v & H16 & Hv).
  { destruct (lookup_lt_is_Some_2 ds 16 ltac:(lia)) as [d Hd].
    rewrite Hh, list_lookup_fmap, Hd. simpl. eexists. split; [done|].
    rewrite (digit_at 16 ds 16 d Hds Hd), Hval, Hlen.
    change (N.of_nat (32 - 1 - 16)) with 15.
    destruct (uuid_v4_variant x) as (w & -> & [->|[->|[->| ->]]]); auto. }
  unfold uuid_str. set (h := fmt_0x 32 (uuid_v4_fields x)) in *. clearbody h.
  exists (take 8 h), (take 4 (drop 8 h)), (take 3 (drop 13 h)), [v],
    (take 3 (drop 17 h)), (drop 20 h).
  split; [|split; [|split]].
  - unfold slice. simpl Nat.sub.
    rewrite (drop_S h 52 12 H12), (drop_S h v 16 H16). done.
  - rewrite !length_take, !length_drop. lia.
  - repeat (apply Forall_app; split);
      repeat first [apply Forall_take | apply Forall_drop]; done.
  - destruct Hv as [->|[->|[->| ->]]]; auto.
Qed.

(** ** Where the identifier and the time of a record come from *)

(** A datetime as the library builds them: every field in its range. *)
Definition valid_datetime (t : datetime) : Prop :=
  (1 <= year (on t) <= 9999 /\ 1 <= month (on t) <= 12 /\ 1 <= day (on t) <= 31
   /\ 0 <= hour t <= 23 /\ 0 <= minute t <= 59 /\ 0 <= second t <= 59
   /\ 0 <= microsecond t <= 999999)%Z.

(** [isoformat] has two widths: 19 characters for a whole second, 26 with
    the microseconds. *)
Lemma length_datetime_isoformat t :
  valid_datetime t ->
  length (datetime_isoformat t) = if (microsecond t =? 0)%Z then 19%nat else 26%nat.
Proof.
  intros (Hy & Hm & Hd & Hh & Hmin & Hs & Hus).
  unfold datetime_isoformat, date_isoformat.
  rewrite !length_app.
  rewrite (length_fmt_0d 4), !(length_fmt_0d 2) by (simpl; lia).
  destruct (Z.eqb_spec (microsecond t) 0) as [Hz|Hnz]; [done|].
  rewrite length_app, (length_fmt_0d 6) by (simpl; lia). done.
Qed.

Section Sources.
Context {U : Unicode} {I : Interpreter} {F : fake.Provider} {C : Clock}.

Import data_generator.

(** The [txid] of a record is the text of a [uuid4()], and its
    [purchase_time] is the ISO text of a reading of the clock. *)
Definition sourced (r : pyval) : Prop :=
  (exists o, field r "txid" = Some (PStr (uuid_str (uuid4 o).1)))
  /\ (exists o, field r "purchase_time" = Some (PStr (datetime_isoformat (utcnow o).1))).

Lemma returns_client_support_sourced : returns client_support sourced.
Proof.
  unfold client_support.
  eapply returns_bind; [apply returns_sample|]. intros state _.
  eapply returns_bind; [apply returns_sample|]. intros txid [o_id ->].
  eapply returns_bind; [apply returns_getrandbits|]. intros rfid _.
  eapply returns_bind; [by apply returns_random_element|]. intros item _.
  eapply returns_bind; [apply returns_sample|]. intros purchase_time [o_clock ->].
  eapply returns_bind; [apply returns_date_new_2023_6_1|]. intros expiration_time _.
  eapply returns_bind; [by apply returns_random_int|]. intros days _.
  do 4 (eapply returns_bind; [apply returns_sample|]; intros ? _).
  eapply returns_bind; [apply returns_none_or|]. intros address _.
  eapply returns_bind; [apply returns_sample|]. intros phone_number _.
  eapply returns_bind; [apply returns_none_or|]. intros phone _.
  eapply returns_bind; [apply returns_sample|]. intros email_address _.
  eapply returns_bind; [apply returns_none_or|]. intros email _.
  do 2 (eapply returns_bind; [apply returns_sample|]; intros ? _).
  eapply returns_bind; [apply returns_none_or|]. intros emergency_contact _.
  apply returns_ret. split; by eexists.
Qed.

Lemma emits_sourced p r : emits p r -> sourced r.
Proof.
  intros (j & o & Hr & _).
  destruct (returns_client_support_sourced p) as (r' & o' & Hr' & Hsrc).
  congruence.
Qed.

(** X11. Every record a call emits has a [txid] that is the text of a
    version-4 UUID: 36 characters, [xxxxxxxx-xxxx-4xxx-vxxx-xxxxxxxxxxxx],
    in lower-case hexadecimal digits with [v] one of [8], [9], [a], [b]. *)
Theorem emitted_txid_is_uuid4 (p : Proc) :
  (exists r, emits p r)
  /\ forall r, emits p r ->
       exists txid,
         field r "txid" = Some (PStr txid) /\ uuid4_text txid /\ length txid = 36%nat.
Proof.
  split.
  { destruct (print_client_support_emits p) as (r & _ & Hemit). by exists r. }
  intros r Hemit. destruct (emits_sourced p r Hemit) as [[o Htxid] _].
  destruct (uuid4_fields o) as (x & Hx & Hfields). rewrite Hfields in Htxid.
  eexists. split; [exact Htxid|].
  pose proof (uuid_str_text x Hx) as Htext. split; [done|].
  destruct Htext as (a & b & c & v & d & e & -> & (Ha & Hb & Hc & Hd & He) & _ & Hv).
  rewrite !length_app, Ha, Hb, Hc, Hd, He.
  by destruct Hv as [->|[->|[->| ->]]].
Qed.

(** X12. Every record a call emits has a [purchase_time] that is the ISO
    text of a reading of the clock, without zone; for a reading with
    every field in its range it has 19 characters
    ([YYYY-MM-DDTHH:MM:SS]) when the microseconds are zero and 26 (with
    [.ffffff]) otherwise. *)
Theorem emitted_purchase_time_shape (p : Proc) :
  (exists r, emits p r)
  /\ forall r, emits p r ->
       exists t,
         (exists o, t = (utcnow o).1)
         /\ field r "purchase_time" = Some (PStr (datetime_isoformat t))
         /\ (valid_datetime t ->
             length (datetime_isoformat t)
             = if (microsecond t =? 0)%Z then 19%nat else 26%nat).
Proof.
  split.
  { destruct (print_client_support_emits p) as (r & _ & Hemit). by exists r. }
  intros r Hemit. destruct (emits_sourced p r Hemit) as [_ [o Htime]].
  exists (utcnow o).1. split; [by eexists|]. split; [done|].
  apply length_datetime_isoformat.
Qed.

End Sources.

(** ** The width of the tag *)

Section Tag.
Context {U : Unicode} {I : Interpreter} {F : fake.Provider} {C : Clock}.

Import data_generator.

(** X13. The [rfid] of every record a call emits is not padded: after the
    prefix [0x] it has between 1 and 24 hexadecimal digits, and the first of
    them is [0] only when the tag is [0x0]. *)
Theorem emitted_rfid_is_not_padded (p : Proc) :
  (exists r, emits p r)
  /\ forall r, emits p r ->
       exists hexdigits,
         field r "rfid" = Some (PStr (lit "0x" ++ hexdigits))
         /\ (1 <= length hexdigits <= 24)%nat
         /\ Forall lower_hex hexdigits
         /\ (hexdigits = lit "0" \/ hexdigits !! 0%nat ≠ Some 48).
Proof.
  destruct (print_client_support_emits p) as (r0 & Hgen & Hemit0).
  split; [by exists r0|]. intros r Hemit.
  rewrite <- (emits_functional p r0 r Hemit0 Hemit). clear r Hemit.
  destruct Hgen as [txid rfid item purchase_time days name address phone email
                      emergency_contact Hrfid _ _ _ _ _ _ _].
  exists (map hex_char (digits 16 rfid)).
  pose proof (digits_bound 16 rfid ltac:(done)) as Hbound.
  split; [|split; [|split]].
  - cbn [field getitem]. unfold hex. rewrite Zabs2N.id.
    by destruct (Z.ltb_spec (Z.of_N rfid) 0); [lia|].
  - rewrite length_map. split.
    + pose proof (digits_nonempty 16 rfid). destruct (digits 16 rfid); [done | simpl; lia].
    + apply digits_length; [lia | exact Hrfid | lia].
  - apply Forall_map. eapply Forall_impl; [exact Hbound|].
    intros d Hd. by apply lower_hex_hex_char.
  - destruct (N.eq_dec rfid 0) as [->|Hne]; [by left | right].
    destruct (digits_aux_leading (N.to_nat (N.size rfid)) 16 rfid) as (d & ds & Hds & Hd);
      [lia | done | apply size_fuel |].
    unfold digits in *. rewrite Hds in *. simpl.
    apply Forall_cons in Hbound as [Hd16 _]. cbv beta in Hd16.
    intros [= Hzero]. unfold hex_char in Hzero.
    destruct (N.ltb_spec d 10); lia.
Qed.

End Tag.

(** * The further properties on the sample installation *)

Section FurtherRuns.

#[local] Existing Instance ascii_only.
#[local] Existing Instance ascii_stdout.
#[local] Existing Instance Sample.provider.
#[local] Existing Instance Sample.clock.

(** Another script name and a further argument: the same run. *)
Lemma generator_reads_only_first_argument_witness :
  data_generator.script [PROG; lit "2"; lit "later"] (start ∅ ∅ (Sample.oracle 1))
  = data_generator.script [lit "gen.py"; lit "2"] (start ∅ ∅ (Sample.oracle 1)).
Proof.
  apply (generator_reads_only_first_argument
           [PROG; lit "2"; lit "later"] [lit "gen.py"; lit "2"]).
  reflexivity.
Defined.

(** The count [2]: three lines, nothing on standard error. *)
Lemma generator_success_is_quiet_witness :
  let e := run_script (data_generator.script [PROG; lit "2"]) (start ∅ ∅ (Sample.oracle 1)) in
  status e = 0%Z
  /\ err e = []
  /\ length (lines (out e)).1 = 3%nat
  /\ (lines (out e)).2 = [].
Proof.
  apply (generator_success_is_quiet PROG (lit "2") 2 ∅ ∅ (Sample.oracle 1)).
  reflexivity.
Defined.

(** The counts [1] and [3]. *)
Lemma generator_count_extends_witness :
  exists js js' : list str,
    Z.of_nat (length js) = 1%Z /\ Z.of_nat (length js') = 2%Z
    /\ out (run_script (data_generator.script [PROG; lit "1"]) (start ∅ ∅ (Sample.oracle 1)))
       = concat (map (fun j => j ++ [NL]) js) ++ [NL]
    /\ out (run_script (data_generator.script [PROG; lit "3"]) (start ∅ ∅ (Sample.oracle 1)))
       = concat (map (fun j => j ++ [NL]) (js ++ js')) ++ [NL].
Proof.
  apply (generator_count_extends PROG (lit "1") (lit "3") 1 2 ∅ ∅ (Sample.oracle 1));
    [lia | lia | reflexivity | reflexivity].
Defined.

(** A key of two lines. *)
Lemma key_preview_is_one_line_witness :
  lines (out (run_script load_key.script
                (start {[ load_key.KEY := lit "-----BEGIN" ++ [NL] ++ lit "MII" ]} ∅
                   (Sample.oracle 1))))
  = ([lit "First 60 chars: '-----BEGIN\nMII'"], []).
Proof.
  destruct (key_preview_is_one_line {[ load_key.KEY := lit "-----BEGIN" ++ [NL] ++ lit "MII" ]} ∅
              (Sample.oracle 1) (lit "-----BEGIN" ++ [NL] ++ lit "MII")) as [_ Hlines];
    [vm_compute; reflexivity | exact Hlines].
Defined.

(** A key of 66 characters: sixty times [A], then [SECRET]. *)
Lemma key_preview_shows_only_60_witness :
  out (run_script load_key.script
         (start {[ load_key.KEY := repeat 65 60 ++ lit "SECRET" ]} ∅ (Sample.oracle 1)))
  = lit "First 60 chars: " ++ repr (repeat 65 60) ++ [NL].
Proof.
  pose proof (key_preview_shows_only_60 {[ load_key.KEY := repeat 65 60 ++ lit "SECRET" ]} ∅
                (Sample.oracle 1) (repeat 65 60) (lit "SECRET")) as Hrun.
  change (stdout_writable (repr (repeat 65 60))) with true in Hrun.
  destruct Hrun as (_ & Hout & _);
    [reflexivity | vm_compute; reflexivity | exact Hout].
Defined.

(** The readings of the sample clock have every field in its range. *)
Example sample_clock_valid o : valid_datetime (utcnow o).1.
Proof.
  assert (forall x k, k ≠ 0 -> (0 <= Z.of_N (x mod k) <= Z.of_N k - 1)%Z) as Hmod.
  { intros x k Hk. pose proof (N.mod_lt x k Hk) as Hlt. apply N2Z.inj_lt in Hlt.
    pose proof (N2Z.is_nonneg (x mod k)). lia. }
  unfold utcnow, Sample.clock. destruct (draw o) as [t o']. unfold valid_datetime.
  cbn [fst on year month day hour minute second microsecond].
  split; [lia|]. split; [lia|]. split; [lia|].
  split; [by apply (Hmod t 24)|]. split; [by apply (Hmod t 60)|].
  split; [by apply (Hmod (t / 60) 60) | by apply (Hmod t 1000000)].
Qed.

End FurtherRuns.
